(** * Verification of the CV curve analyzer ([app.py])

    Shallow embedding of the data loader [read_cv_data], the cycle segmenter
    [split_cycles_by_return_to_start], the cycle selector [select_cycles] and
    the two plot composers [plot_single_cv] and [plot_multi_cv].

    Floating-point samples are modelled as rationals [Q]; the arithmetic the
    code does on them (a subtraction, an absolute value and a comparison in
    the segmenter, comparisons in [np.argmax]/[np.argmin]) is exact there. *)

From Stdlib Require Import String Ascii List Arith Lia Bool.
From Stdlib Require Import QArith Qabs Sorted Permutation.
Import ListNotations.
Open Scope nat_scope.

(** ** Numbers *)

(** [x < y] on rationals, as a boolean. *)
Definition Qltb (x y : Q) : bool := negb (Qle_bool y x).



(** ** The cycle segmenter

<<
def split_cycles_by_return_to_start(potential, tol=1e-3):
    potential = np.array(potential)
    v0 = potential[0]
    segments = []
    start_idx = 0
    for i in range(1, len(potential)):
        if abs(potential[i] - v0) < tol and (i - start_idx) > 10:
            segments.append((start_idx, i))
            start_idx = i
    if start_idx < len(potential):
        segments.append((start_idx, len(potential)))
    return segments
>>

    [potential[0]] on an empty array raises [IndexError]: the segmenter
    returns [None] there.  The loop is written with the index [i] and a fuel
    counting the iterations left of [range(1, len(potential))]; [start_idx]
    is always an earlier value of [i], so [i - start_idx] never truncates. *)

Definition default_tol : Q := 1 # 1000.

(** The test of the loop body, at index [i] for the current [start_idx]. *)
Definition returns_to_start (potential : list Q) (tol : Q) (start_idx i : nat) : bool :=
  Qltb (Qabs (nth i potential 0%Q - nth 0 potential 0%Q)) tol && (10 <? i - start_idx).

Fixpoint scan_cycles (potential : list Q) (tol : Q) (i fuel start_idx : nat)
    (segments : list (nat * nat)) : list (nat * nat) * nat :=
  match fuel with
  | O => (segments, start_idx)
  | S fuel' =>
      if returns_to_start potential tol start_idx i
      then scan_cycles potential tol (S i) fuel' i (segments ++ [(start_idx, i)])
      else scan_cycles potential tol (S i) fuel' start_idx segments
  end.

Definition split_cycles_by_return_to_start (potential : list Q) (tol : Q)
    : option (list (nat * nat)) :=
  match potential with
  | [] => None  (* IndexError at [potential[0]] *)
  | _ :: _ =>
      let '(segments, start_idx) :=
        scan_cycles potential tol 1 (length potential - 1) 0 [] in
      Some (if start_idx <? length potential
            then segments ++ [(start_idx, length potential)]
            else segments)
  end.

(** [segs] covers [[a, n)]: consecutive half-open, non-empty ranges, the
    first starting at [a], each starting where the previous one ends, the last
    ending at [n]. Hence every index of [[a, n)] lies in exactly one range and
    the ranges come in increasing start order. *)
Fixpoint tiles (a : nat) (segs : list (nat * nat)) (n : nat) : Prop :=
  match segs with
  | [] => a = n
  | (s, e) :: rest => s = a /\ s < e /\ tiles e rest n
  end.

(** Index [k] lies in exactly one range of [segs]. *)
Definition covered_once (segs : list (nat * nat)) (k : nat) : Prop :=
  exists j s e, nth_error segs j = Some (s, e) /\ s <= k < e /\
    forall j' s' e', nth_error segs j' = Some (s', e') -> s' <= k < e' -> j' = j.

(** ** Peak locator: [np.argmax] / [np.argmin]

    Both scan left to right and keep the first index of the extreme value;
    on an empty sequence they raise [ValueError]. *)

Fixpoint argmax_from (best_i : nat) (best : Q) (i : nat) (l : list Q) : nat :=
  match l with
  | [] => best_i
  | x :: t => if Qltb best x then argmax_from i x (S i) t
              else argmax_from best_i best (S i) t
  end.

Fixpoint argmin_from (best_i : nat) (best : Q) (i : nat) (l : list Q) : nat :=
  match l with
  | [] => best_i
  | x :: t => if Qltb x best then argmin_from i x (S i) t
              else argmin_from best_i best (S i) t
  end.

Definition argmax (l : list Q) : option nat :=
  match l with [] => None | x :: t => Some (argmax_from 0 x 1 t) end.

Definition argmin (l : list Q) : option nat :=
  match l with [] => None | x :: t => Some (argmin_from 0 x 1 t) end.

(** ** Uploaded CSV files and the loader

    The tabular content of a CSV file, as [pd.read_csv] parses it, restricted
    to the four columns the loader consults, with the types of the input
    format: [x], [y] numeric, [x_unit], [y_unit] text with missing cells.
    [columns] lists the header names; a row holds the values of the four
    columns (those of absent columns are never read). *)
Record row := {
  r_x : Q; r_y : Q; r_x_unit : option string; r_y_unit : option string
}.

Record frame := { columns : list string; rows : list row }.

(** The outcome of [pd.read_csv] on the bytes of a file: [EmptyData] when
    there are no columns to parse ([pd.errors.EmptyDataError]), [Unparsable]
    when it raises another error (e.g. [pd.errors.ParserError] on a row with
    more fields than the header), which the loader does not catch. *)
Inductive csv_data := EmptyData | Unparsable | Table (fr : frame).

(** An uploaded file (a stream): its name, its content, and whether it has
    already been read to its end.  [pd.read_csv] reads from the current
    position to the end and does not rewind, so a second read of the same
    upload finds no columns. *)
Record upload := { u_name : string; u_content : csv_data; u_consumed : bool }.

Definition read_csv (u : upload) : csv_data :=
  if u_consumed u then EmptyData else u_content u.

Definition has_column (fr : frame) (c : string) : bool :=
  existsb (String.eqb c) (columns fr).

(** [df.get(c, None)] for a numeric column. *)
Definition df_get (fr : frame) (c : string) (proj : row -> Q) : option (list Q) :=
  if has_column fr c then Some (map proj (rows fr)) else None.

(** [df[c].dropna().iloc[0]] when that column is non-empty after [dropna]. *)
Fixpoint first_non_na (cells : list (option string)) : option string :=
  match cells with
  | [] => None
  | Some v :: _ => Some v
  | None :: t => first_non_na t
  end.

Definition unit_of (fr : frame) (c : string) (proj : row -> option string)
    (default : string) : string :=
  if has_column fr c then
    match first_non_na (map proj (rows fr)) with Some v => v | None => default end
  else default.

(** ** Rendered output *)

Inductive color := Tab10 (k : nat) | Named (c : string).
Inductive style := Line | Marker.

(** One [ax.plot] call (alpha and line width are cosmetic and left out). *)
Record series := {
  s_label : string; s_color : color; s_style : style; s_x : list Q; s_y : list Q
}.

(** The figure: its series in plotting order and its two axis labels
    (legend and grid are always on). *)
Record figure := { f_series : list series; f_xlabel : string; f_ylabel : string }.

(** [colormaps.get_cmap('tab10').N] *)
Definition tab10_N : nat := 10.

(** ** Effects: the uploaded files, the warnings shown, and exceptions *)

Inductive event := Warning_empty (file_name : string).

(** [DuplicateElementId] is Streamlit's error for a second widget with the
    same label and arguments (no [key]) in one run of the page. *)
Inductive exn :=
  IndexError | ValueError (msg : string) | Savgol_error | ParserError | DuplicateElementId.

Record world := { uploads : list upload; log : list event }.

Definition M (A : Type) : Type := world -> (exn + A) * world.

Definition ret {A} (a : A) : M A := fun w => (inr a, w).
Definition raise {A} (e : exn) : M A := fun w => (inl e, w).
Definition bind {A B} (m : M A) (k : A -> M B) : M B :=
  fun w => match m w with
           | (inl e, w') => (inl e, w')
           | (inr a, w') => k a w'
           end.

Notation "'let*' x ':=' c 'in' k" := (bind c (fun x => k))
  (at level 200, x binder, c at level 100, k at level 200).

Definition of_option {A} (e : exn) (o : option A) : M A :=
  match o with Some a => ret a | None => raise e end.

(** [files[k]] *)
Definition get_upload (k : nat) : M upload :=
  fun w => match nth_error (uploads w) k with
           | Some u => (inr u, w)
           | None => (inl IndexError, w)
           end.

Fixpoint set_nth {A} (k : nat) (a : A) (l : list A) : list A :=
  match l, k with
  | [], _ => []
  | _ :: t, O => a :: t
  | x :: t, S k' => x :: set_nth k' a t
  end.

(** The upload [u] once read to its end. *)
Definition consumed_upload (u : upload) : upload :=
  {| u_name := u_name u; u_content := u_content u; u_consumed := true |}.

Definition mark_consumed (k : nat) (u : upload) : M unit :=
  fun w => (inr tt, {| uploads := set_nth k (consumed_upload u) (uploads w);
                      log := log w |}).

(** [st.warning(...)] *)
Definition warn (ev : event) : M unit :=
  fun w => (inr tt, {| uploads := uploads w; log := log w ++ [ev] |}).

(** Run [f] on each element in order, concatenating the series it plots. *)
Fixpoint for_each {A} (l : list A) (f : A -> M (list series)) : M (list series) :=
  match l with
  | [] => ret []
  | x :: t => let* s := f x in let* s' := for_each t f in ret (s ++ s')
  end.

(** [read_cv_data(files[k])] *)
Definition read_cv_data (k : nat)
    : M (option (list Q) * option (list Q) * string * string) :=
  let* u := get_upload k in
  let* _ := mark_consumed k u in
  match read_csv u with
  | EmptyData =>
      let* _ := warn (Warning_empty (u_name u)) in
      ret (None, None, "V"%string, "A"%string)
  | Unparsable => raise ParserError
  | Table fr =>
      ret (df_get fr "x" r_x, df_get fr "y" r_y,
           unit_of fr "x_unit" r_x_unit "V", unit_of fr "y_unit" r_y_unit "A")
  end.

(** ** Strings of the labels *)

Fixpoint digits_aux (fuel n : nat) (acc : string) : string :=
  match fuel with
  | O => acc
  | S f =>
      let acc' := String (ascii_of_nat (48 + n mod 10)) acc in
      if n <? 10 then acc' else digits_aux f (n / 10) acc'
  end.

(** [str(n)] for a natural number. *)
Definition show_nat (n : nat) : string := digits_aux (S n) n EmptyString.

Fixpoint has_slash (s : string) : bool :=
  match s with
  | EmptyString => false
  | String c t => Ascii.eqb c "/" || has_slash t
  end.

(** [os.path.basename]: the part after the last ["/"]. *)
Fixpoint basename (s : string) : string :=
  match s with
  | EmptyString => EmptyString
  | String c t => if has_slash t then basename t
                  else if Ascii.eqb c "/" then t else s
  end.

Fixpoint drop_csv (l : list ascii) : list ascii :=
  match l with
  | a :: ((b :: c :: d :: rest) as tl) =>
      if Ascii.eqb a "." && Ascii.eqb b "c" && Ascii.eqb c "s" && Ascii.eqb d "v"
      then drop_csv rest else a :: drop_csv tl
  | _ => l
  end.

(** [s.replace('.csv', '')] *)
Definition replace_csv (s : string) : string :=
  string_of_list_ascii (drop_csv (list_ascii_of_string s)).

(** [potential[start:end]] *)
Definition slice {A} (l : list A) (start stop : nat) : list A :=
  firstn (stop - start) (skipn start l).

(** ** The plot composers

    Two collaborators are left abstract: the user's answer to a
    [st.multiselect] widget (the options the user keeps), and
    [scipy.signal.savgol_filter] (its result, or [None] when it raises). *)

(** The [st.multiselect] widgets: the one of [plot_single_cv], and the one
    of [plot_multi_cv] for a given file name. *)
Inductive widget := W_single_cycles | W_file_cycles (file_name : string).

Section Plots.

Variable multiselect : widget -> list string -> list string.
Variable savgol_filter : list Q -> nat -> nat -> option (list Q).

Definition cycle_label (i : nat) : string := "Cycle " ++ show_nat (i + 1).

(** [select_cycles(segments, label)] *)
Definition select_cycles (segments : list (nat * nat)) (label : widget) : list nat :=
  let cycle_labels := map cycle_label (seq 0 (length segments)) in
  let selected := multiselect label cycle_labels in
  filter (fun i => existsb (String.eqb (cycle_label i)) selected)
         (seq 0 (length segments)).

Definition smooth_seq (values : list Q) : M (list Q) :=
  of_option Savgol_error (savgol_filter values 11 3).

(** [label or os.path.basename(csv_file.name)] *)
Definition display_name (label : option string) (file_name : string) : string :=
  match label with
  | Some l => if String.eqb l "" then basename file_name else l
  | None => basename file_name
  end.

Definition line (lbl : string) (c : color) (x y : list Q) : series :=
  {| s_label := lbl; s_color := c; s_style := Line; s_x := x; s_y := y |}.

Definition marker (lbl : string) (c : color) (x y : Q) : series :=
  {| s_label := lbl; s_color := c; s_style := Marker; s_x := [x]; s_y := [y] |}.

(** [plot_single_cv(files[k], label, smooth, mark_peaks, auto_split)] *)
Definition plot_single_cv (k : nat) (label : option string)
    (smooth mark_peaks auto_split : bool) : M figure :=
  let* '(potential, current, x_unit, y_unit) := read_cv_data k in
  match potential, current with
  | Some potential, Some current =>
    let* u := get_upload k in
    let nm := display_name label (u_name u) in
    let* curves :=
      if auto_split then
        let* segments := of_option IndexError
                           (split_cycles_by_return_to_start potential default_tol) in
        let selected_cycles := select_cycles segments W_single_cycles in
        for_each selected_cycles (fun i =>
          let '(start, stop) := nth i segments (0, 0) in
          let c := Tab10 (i mod tab10_N) in
          let lbl := (nm ++ " cycle " ++ show_nat (i + 1))%string in
          let raw := line lbl c (slice potential start stop) (slice current start stop) in
          if smooth then
            let* x_smooth := smooth_seq (slice potential start stop) in
            let* y_smooth := smooth_seq (slice current start stop) in
            ret [raw; line (lbl ++ " smoothed") c x_smooth y_smooth]
          else ret [raw])
      else
        let raw := line (nm ++ " (raw)") (Named "blue") potential current in
        if smooth then
          let* x_smooth := smooth_seq potential in
          let* y_smooth := smooth_seq current in
          ret [raw; line (nm ++ " (smoothed)") (Named "red") x_smooth y_smooth]
        else ret [raw] in
    let* peaks :=
      if mark_peaks && negb auto_split then
        let* ox_idx := of_option (ValueError "argmax of an empty sequence") (argmax current) in
        let* red_idx := of_option (ValueError "argmin of an empty sequence") (argmin current) in
        ret [marker "Ox peak" (Named "r") (nth ox_idx potential 0%Q) (nth ox_idx current 0%Q);
             marker "Red peak" (Named "b") (nth red_idx potential 0%Q) (nth red_idx current 0%Q)]
      else ret [] in
    ret {| f_series := curves ++ peaks;
           f_xlabel := "Potential (" ++ x_unit ++ ")";
           f_ylabel := "Current (" ++ y_unit ++ ")" |}
  | _, _ => raise (ValueError "CSV missing required columns")
  end.

(** The body of the loop of [plot_multi_cv] for the file at index [i]. *)
Definition multi_file_series (smooth : bool) (selected_files : list string)
    (auto_split : bool) (i : nat) : M (list series) :=
  let* f := get_upload i in
  if match selected_files with [] => false | _ => true end
     && negb (existsb (String.eqb (u_name f)) selected_files)
  then ret []
  else
    let* '(potential, current, x_unit, y_unit) := read_cv_data i in
    match potential, current with
    | Some potential, Some current =>
      if auto_split then
        let* segments := of_option IndexError
                           (split_cycles_by_return_to_start potential default_tol) in
        let selected_cycles := select_cycles segments (W_file_cycles (u_name f)) in
        for_each selected_cycles (fun j =>
          let '(start, stop) := nth j segments (0, 0) in
          let c := Tab10 ((i + j) mod tab10_N) in
          let lbl := (u_name f ++ " cycle " ++ show_nat (j + 1))%string in
          let raw := line lbl c (slice potential start stop) (slice current start stop) in
          if smooth then
            let* x_smooth := smooth_seq (slice potential start stop) in
            let* y_smooth := smooth_seq (slice current start stop) in
            ret [raw; line (lbl ++ " smoothed") c x_smooth y_smooth]
          else ret [raw])
      else
        let c := Tab10 (i mod tab10_N) in
        let raw := line (replace_csv (u_name f) ++ " (raw)") c potential current in
        if smooth then
          let* x_smooth := smooth_seq potential in
          let* y_smooth := smooth_seq current in
          ret [raw; line (replace_csv (u_name f) ++ " (smoothed)") c x_smooth y_smooth]
        else ret [raw]
    | _, _ => ret []
    end.

(** The axis units: re-read [files[0]] after the loop. *)
Definition multi_units (nfiles : nat) : M (string * string) :=
  match nfiles with
  | O => ret ("V"%string, "A"%string)
  | S _ =>
      let* '(first_p, first_c, x_unit, y_unit) := read_cv_data 0 in
      match first_p, first_c with
      | Some _, Some _ => ret (x_unit, y_unit)
      | _, _ => ret ("V"%string, "A"%string)
      end
  end.

(** [plot_multi_cv(files, smooth, selected_files, auto_split)], [files]
    being the uploads of the world; [selected_files = None] and [[]] are
    both falsy and are both [[]] here. *)
Definition plot_multi_cv (smooth : bool) (selected_files : list string)
    (auto_split : bool) : M figure :=
  fun w =>
    let nfiles := length (uploads w) in
    (let* curves := for_each (seq 0 nfiles)
                      (multi_file_series smooth selected_files auto_split) in
     let* '(x_unit, y_unit) := multi_units nfiles in
     ret {| f_series := curves;
            f_xlabel := "Potential (" ++ x_unit ++ ")";
            f_ylabel := "Current (" ++ y_unit ++ ")" |}) w.

(** ** The page script

<<
uploaded_files = st.file_uploader(..., accept_multiple_files=True)
if uploaded_files:
    view_mode = st.radio(...); smooth = st.checkbox(...)
    mark_peaks = st.checkbox(...); auto_split = st.checkbox(...)
    if view_mode == SINGLE:
        selected = st.selectbox(..., uploaded_files, ...)
        fig = plot_single_cv(selected, smooth=smooth, mark_peaks=mark_peaks, auto_split=auto_split)
        st.pyplot(fig)
    else:
        selected_files = []
        for f in uploaded_files:
            if st.checkbox(f.name, value=True):
                selected_files.append(f.name)
        if selected_files:
            fig = plot_multi_cv(uploaded_files, smooth=smooth, selected_files=selected_files, auto_split=auto_split)
            st.pyplot(fig)
        else:
            st.info(...)
else:
    st.info(...)
>>

    The answers of the widgets are inputs: the view mode, the three
    check boxes, the index of the file picked in the select box, and the
    answer of the check box of each file (by its position). *)

Inductive view_mode := Single_file | Overlay.

(** What the page shows: one of the two information messages, or a figure. *)
Inductive page := Info_upload | Info_select | Shown (fig : figure).

Record answers := {
  a_view : view_mode; a_smooth : bool; a_mark_peaks : bool; a_auto_split : bool;
  a_chosen : nat; a_include : nat -> bool
}.

(** The loop [for f in uploaded_files: if st.checkbox(f.name, value=True):
    selected_files.append(f.name)], from position [i] on: [seen] holds the
    labels of the check boxes already created in this loop; a check box whose
    label is among them raises [DuplicateElementId] (the other widgets of the
    page have other labels or other default values). *)
Fixpoint checkbox_loop (include : nat -> bool) (i : nat) (seen : list string)
    (selected_files : list string) (files : list upload) : exn + list string :=
  match files with
  | [] => inr selected_files
  | f :: t =>
      if existsb (String.eqb (u_name f)) seen then inl DuplicateElementId
      else checkbox_loop include (S i) (u_name f :: seen)
             (if include i then selected_files ++ [u_name f] else selected_files) t
  end.

Definition main_page (a : answers) : M page :=
  fun w =>
    match uploads w with
    | [] => ret Info_upload w
    | _ :: _ =>
      match a_view a with
      | Single_file =>
          (let* fig := plot_single_cv (a_chosen a) None (a_smooth a) (a_mark_peaks a)
                         (a_auto_split a) in
           ret (Shown fig)) w
      | Overlay =>
          match checkbox_loop (a_include a) 0 [] [] (uploads w) with
          | inl e => raise e w
          | inr [] => ret Info_select w
          | inr selected_files =>
              (let* fig := plot_multi_cv (a_smooth a) selected_files (a_auto_split a) in
               ret (Shown fig)) w
          end
      end
    end.

End Plots.

(** ** Specification predicates *)

(** A segment closed inside the loop: long enough, closed at a
    return-to-start point, and no earlier point of it closes it. *)
Definition closed_ok (potential : list Q) (tol : Q) (se : nat * nat) : Prop :=
  let '(s, e) := se in
  10 < e - s /\ returns_to_start potential tol s e = true /\ forall k, s < k < e -> returns_to_start potential tol s k = false.

(** Every run of [m] relates its initial and final worlds by [R]. *)
Definition kept (R : world -> world -> Prop) {A} (m : M A) : Prop :=
  forall w r w', m w = (r, w') -> R w w'.

Definition same_names (w w' : world) : Prop :=
  map u_name (uploads w) = map u_name (uploads w').

Definition same_first (w w' : world) : Prop :=
  nth_error (uploads w) 0 = nth_error (uploads w') 0.

(** The color of a cycle curve of the overlay, with the file and cycle it
    belongs to. *)
Definition cycle_colored (w0 : world) (s : series) : Prop :=
  exists i j u, nth_error (uploads w0) i = Some u /\
    s_color s = Tab10 ((i + j) mod 10) /\
    (s_label s = (u_name u ++ " cycle " ++ show_nat (j + 1))%string \/
     s_label s = ((u_name u ++ " cycle " ++ show_nat (j + 1)) ++ " smoothed")%string).

(** What the overlay loop leaves of [files[0]]: untouched when the selection
    skips it, read to its end otherwise. *)
Definition first_after_loop (selected_files : list string) (u : upload) : upload :=
  if match selected_files with [] => false | _ => true end
     && negb (existsb (String.eqb (u_name u)) selected_files)
  then u else consumed_upload u.

Definition keeps_consumed (u0 : upload) (w w' : world) : Prop :=
  nth_error (uploads w) 0 = Some (consumed_upload u0) ->
  nth_error (uploads w') 0 = Some (consumed_upload u0).


(** The decimal value of a string of digits, read left to right. *)
Fixpoint digits_value (acc : nat) (s : string) : nat :=
  match s with
  | EmptyString => acc
  | String c t => digits_value (acc * 10 + (nat_of_ascii c - 48)) t
  end.

(** A curve of the overlay without auto-split: it belongs to a selected
    file at index [i] of the uploads, has the color [tab10[i mod 10]] and
    the file's name without [.csv] as its label. *)
Definition file_colored (w0 : world) (selected_files : list string) (s : series) : Prop :=
  exists i u, nth_error (uploads w0) i = Some u /\
    (selected_files = [] \/ In (u_name u) selected_files) /\
    s_color s = Tab10 (i mod 10) /\
    (s_label s = (replace_csv (u_name u) ++ " (raw)")%string \/
     s_label s = (replace_csv (u_name u) ++ " (smoothed)")%string).


(** The units a reading of the upload [files[0]] by the loader gives the
    axes of the overlay: those of its [x_unit]/[y_unit] columns when it has
    an [x] and a [y] column, ["V"]/["A"] otherwise. *)
Definition axis_units (d : csv_data) : string * string :=
  match d with
  | Table fr =>
      if has_column fr "x" && has_column fr "y"
      then (unit_of fr "x_unit" r_x_unit "V", unit_of fr "y_unit" r_y_unit "A")
      else ("V"%string, "A"%string)
  | _ => ("V"%string, "A"%string)
  end.

Definition axis_labels (units : string * string) : string * string :=
  (("Potential (" ++ fst units ++ ")")%string, ("Current (" ++ snd units ++ ")")%string).

(** Every upload is one [pd.read_csv] can parse (or finds empty). *)
Definition all_parse (w : world) : Prop :=
  Forall (fun u => read_csv u <> Unparsable) (uploads w).

(** ** Concrete inputs *)

(** The upload of a CSV file with the header [x,y] and no data row:
    [pd.read_csv] gives an empty frame with the columns [x] and [y]. *)
Definition header_only_world : world :=
  {| uploads := [{| u_name := "empty.csv";
                    u_content := Table {| columns := ["x"; "y"]%string; rows := [] |};
                    u_consumed := false |}];
     log := [] |}.

(** An upload with no content at all: [pd.read_csv] raises [EmptyDataError]. *)
Definition empty_file_world : world :=
  {| uploads := [{| u_name := "blank.csv"; u_content := EmptyData; u_consumed := false |}];
     log := [] |}.

(** A user who keeps every option of every [st.multiselect]. *)
Definition keep_all : widget -> list string -> list string := fun _ options => options.

(** A smoothing routine that always raises (used where smoothing is off). *)
Definition savgol_raises : list Q -> nat -> nat -> option (list Q) := fun _ _ _ => None.

Definition xy_rows (xs : list Q) : list row :=
  map (fun x => {| r_x := x; r_y := x; r_x_unit := None; r_y_unit := None |}) xs.

(** A file of two cycles (it returns to its start at index 12). *)
Definition two_cycle_upload (nm : string) : upload :=
  {| u_name := nm;
     u_content := Table {| columns := ["x"; "y"]%string;
                           rows := xy_rows [0; 1; 2; 3; 4; 5; 6; 7; 8; 9; 10; 11; 0; 1]%Q |};
     u_consumed := false |}.

Definition cycles_world : world :=
  {| uploads := [two_cycle_upload "a.csv"; two_cycle_upload "b.csv"]; log := [] |}.

(** A file in millivolt and milliampere, and a file without unit columns. *)
Definition mv_frame : frame :=
  {| columns := ["x"; "y"; "x_unit"; "y_unit"]%string;
     rows := [{| r_x := 0; r_y := 1; r_x_unit := Some "mV"%string; r_y_unit := Some "mA"%string |};
              {| r_x := 1; r_y := 2; r_x_unit := None; r_y_unit := None |}] |}.

Definition plain_frame : frame :=
  {| columns := ["x"; "y"]%string; rows := xy_rows [0; 1]%Q |}.

Definition units_world : world :=
  {| uploads := [{| u_name := "A.csv"; u_content := Table mv_frame; u_consumed := false |};
                 {| u_name := "B.csv"; u_content := Table plain_frame; u_consumed := false |}];
     log := [] |}.

Definition units_world' : world :=
  {| uploads := [{| u_name := "A.csv"; u_content := Table mv_frame; u_consumed := false |};
                 {| u_name := "C.csv"; u_content := Table plain_frame; u_consumed := false |};
                 {| u_name := "D.csv"; u_content := EmptyData; u_consumed := false |}];
     log := [] |}.

(** A file of two cycles, alone in the uploads. *)
Definition two_cycle_frame : frame :=
  {| columns := ["x"; "y"]%string;
     rows := xy_rows [0; 1; 2; 3; 4; 5; 6; 7; 8; 9; 10; 11; 0; 1]%Q |}.

Definition split_world : world :=
  {| uploads := [{| u_name := "cv.csv"; u_content := Table two_cycle_frame; u_consumed := false |}];
     log := [] |}.

(** The overlay view with every file's check box left ticked. *)
Definition overlay_all : answers :=
  {| a_view := Overlay; a_smooth := false; a_mark_peaks := false; a_auto_split := false;
     a_chosen := 0; a_include := fun _ => true |}.

(** A smoother that keeps its input. *)
Definition savgol_id : list Q -> nat -> nat -> option (list Q) := fun values _ _ => Some values.

(** A file [pd.read_csv] cannot parse (say ["x,y\n1,2\n3,4,5\n"]: a row with
    more fields than the header) before a good one. *)
Definition parse_error_world : world :=
  {| uploads := [{| u_name := "bad.csv"; u_content := Unparsable; u_consumed := false |};
                 {| u_name := "B.csv"; u_content := Table plain_frame; u_consumed := false |}];
     log := [] |}.

(** Two uploads with the same name. *)
Definition dup_world : world :=
  {| uploads := [{| u_name := "B.csv"; u_content := Table plain_frame; u_consumed := false |};
                 {| u_name := "B.csv"; u_content := Table mv_frame; u_consumed := false |}];
     log := [] |}.

(** ** Lemmas *)

Lemma Qltb_spec (x y : Q) : Qltb x y = true <-> (x < y)%Q.
Proof.
  unfold Qltb. rewrite negb_true_iff. split.
  - intro H. apply Qnot_le_lt. intro Hle. apply Qle_bool_iff in Hle. congruence.
  - intro H. destruct (Qle_bool y x) eqn:E; [|reflexivity].
    apply Qle_bool_iff in E. exfalso. apply (Qlt_not_le x y); assumption.
Qed.

(** ** The segmenter: loop invariant *)

Section Segmenter.

Variable potential : list Q.
Variable tol : Q.


Lemma tiles_snoc (segs : list (nat * nat)) (a b c : nat) :
  tiles a segs b -> b < c -> tiles a (segs ++ [(b, c)]) c.
Proof.
  revert a. induction segs as [|[s e] rest IH]; simpl; intros a Ht Hbc.
  - subst. repeat split; lia.
  - destruct Ht as (-> & Hse & Ht). repeat split; auto.
Qed.

Lemma scan_cycles_inv (fuel i start : nat) (segs : list (nat * nat)) :
  start < i ->
  (forall k, start < k < i -> returns_to_start potential tol start k = false) ->
  tiles 0 segs start -> Forall (closed_ok potential tol) segs ->
  let '(segs', st') := scan_cycles potential tol i fuel start segs in
  st' < i + fuel /\ (forall k, st' < k < i + fuel -> returns_to_start potential tol st' k = false) /\
  tiles 0 segs' st' /\ Forall (closed_ok potential tol) segs'.
Proof.
  revert i start segs.
  induction fuel as [|fuel IH]; intros i start segs Hlt Hnone Ht Hok; simpl.
  - rewrite Nat.add_0_r. auto.
  - destruct (returns_to_start potential tol start i) eqn:E.
    + replace (i + S fuel) with (S i + fuel) by lia.
      apply IH.
      * lia.
      * intros k Hk. lia.
      * apply tiles_snoc; assumption.
      * apply Forall_app. split; [assumption|]. constructor; [|constructor].
        simpl. split; [|split; assumption].
        unfold returns_to_start in E. apply andb_true_iff in E as [_ E].
        apply Nat.ltb_lt in E. exact E.
    + replace (i + S fuel) with (S i + fuel) by lia.
      apply IH; try assumption; [lia|].
      intros k Hk. destruct (Nat.eq_dec k i) as [->|Hne]; [assumption|].
      apply Hnone. lia.
Qed.

(** The result of the segmenter on a non-empty sequence: the closed
    segments, then the trailing one. *)
Lemma split_cycles_shape :
  potential <> [] ->
  exists segs st,
    split_cycles_by_return_to_start potential tol = Some (segs ++ [(st, length potential)]) /\
    st < length potential /\
    (forall k, st < k < length potential -> returns_to_start potential tol st k = false) /\
    tiles 0 segs st /\ Forall (closed_ok potential tol) segs.
Proof.
  intro Hne. unfold split_cycles_by_return_to_start.
  destruct potential as [|v0 rest] eqn:Ep; [congruence|].
  rewrite <- Ep.
  pose proof (scan_cycles_inv (length potential - 1) 1 0 [] ltac:(lia)
                (fun k Hk => ltac:(lia)) eq_refl (Forall_nil _)) as H.
  destruct (scan_cycles potential tol 1 (length potential - 1) 0 []) as [segs st].
  assert (Hlen : 1 + (length potential - 1) = length potential)
    by (rewrite Ep; simpl; lia).
  rewrite Hlen in H. destruct H as (Hst & Hnone & Ht & Hok).
  exists segs, st. rewrite (proj2 (Nat.ltb_lt _ _) Hst). auto.
Qed.

End Segmenter.

(** ** Tilings *)

Lemma tiles_bounds (segs : list (nat * nat)) (a n : nat) :
  tiles a segs n -> forall s e, In (s, e) segs -> a <= s /\ s < e /\ e <= n.
Proof.
  revert a. induction segs as [|[s0 e0] rest IH]; simpl; intros a Ht s e Hin.
  - contradiction.
  - destruct Ht as (-> & Hlt & Ht). destruct Hin as [Heq|Hin].
    + injection Heq as <- <-. split; [lia|split; [lia|]].
      destruct rest as [|[s1 e1] rest']; simpl in Ht.
      * lia.
      * destruct (IH e0 Ht s1 e1 (or_introl eq_refl)) as (_ & _ & ?).
        destruct Ht as (<- & ? & _). lia.
    + destruct (IH e0 Ht s e Hin) as (? & ? & ?). lia.
Qed.

Lemma tiles_covered_once (segs : list (nat * nat)) (a n : nat) :
  tiles a segs n -> forall k, a <= k < n -> covered_once segs k.
Proof.
  revert a. induction segs as [|[s e] rest IH]; simpl; intros a Ht k Hk.
  - lia.
  - destruct Ht as (-> & Hlt & Ht).
    destruct (Nat.lt_ge_cases k e) as [Hke|Hke].
    + exists 0, a, e. split; [reflexivity|]. split; [lia|].
      intros [|j'] s' e' Hj' Hk'; [reflexivity|].
      simpl in Hj'. apply nth_error_In in Hj'.
      destruct (tiles_bounds rest e n Ht s' e' Hj'). lia.
    + destruct (IH e Ht k ltac:(lia)) as (j & s1 & e1 & Hj & Hk1 & Huniq).
      exists (S j), s1, e1. split; [exact Hj|]. split; [exact Hk1|].
      intros [|j'] s' e' Hj' Hk'.
      * simpl in Hj'. injection Hj' as <- <-. lia.
      * f_equal. exact (Huniq j' s' e' Hj' Hk').
Qed.

Lemma returns_to_start_spec (potential : list Q) (tol : Q) (s k : nat) :
  returns_to_start potential tol s k = true <->
  (Qabs (nth k potential 0 - nth 0 potential 0) < tol)%Q /\ k - s > 10.
Proof.
  unfold returns_to_start. rewrite andb_true_iff, Qltb_spec, Nat.ltb_lt. tauto.
Qed.

Lemma closed_ok_rts (potential : list Q) (tol : Q) (s e : nat) :
  closed_ok potential tol (s, e) -> returns_to_start potential tol s e = true.
Proof. simpl. tauto. Qed.

Lemma header_only_auto_split_fails
    (ms : widget -> list string -> list string)
    (sg : list Q -> nat -> nat -> option (list Q)) (smooth mark_peaks : bool) :
  fst (plot_single_cv ms sg 0 None smooth mark_peaks true header_only_world) = inl IndexError.
Proof. reflexivity. Qed.

(** ** Claims about the cycle segmenter *)

(** C1: the segments returned for a potential sequence [P] tile [[0, len(P))]:
    contiguous, non-overlapping, in increasing start order, every index in
    exactly one segment.  This holds for every non-empty [P]; on the empty
    sequence the code raises [IndexError] at [potential[0]] instead of
    returning no segments, and a CSV with the header [x,y] and no row reaches
    it through [plot_single_cv] with auto-split on. *)
Theorem split_cycles_partition :
  (forall tol, split_cycles_by_return_to_start [] tol = None) /\
  (forall ms sg smooth mark_peaks,
     fst (plot_single_cv ms sg 0 None smooth mark_peaks true header_only_world)
     = inl IndexError) /\
  (forall (potential : list Q) (tol : Q), potential <> [] ->
   exists segs, split_cycles_by_return_to_start potential tol = Some segs /\
     tiles 0 segs (length potential) /\
     (forall k, k < length potential -> covered_once segs k)).
Proof.
  split; [reflexivity|]. split; [exact header_only_auto_split_fails|].
  intros potential tol Hne.
  destruct (split_cycles_shape potential tol Hne) as (segs & st & Hsplit & Hst & _ & Ht & _).
  exists (segs ++ [(st, length potential)]). split; [exact Hsplit|].
  assert (Htiles : tiles 0 (segs ++ [(st, length potential)]) (length potential))
    by (apply tiles_snoc; assumption).
  split; [exact Htiles|].
  intros k Hk. apply (tiles_covered_once _ 0 (length potential) Htiles). lia.
Qed.

(** C2 (as the code has it): the segmenter takes the tolerance [tol] as its
    only parameter; the minimum length is the constant 10.  Scanning
    [i = 1, 2, ...], it closes the current segment [[start, i)] exactly at the
    first [i] with [|P[i] - P[0]| < tol] and [i - start > 10]: every segment
    but the last ends at such a point, and no point strictly inside a segment
    satisfies the test for that segment.  Hence
    [split([0,1,2,3,0,1,2,3,0])] is the single segment [(0,9)]. *)
Theorem split_cycles_closing_rule :
  split_cycles_by_return_to_start [0; 1; 2; 3; 0; 1; 2; 3; 0]%Q default_tol = Some [(0, 9)] /\
  forall (potential : list Q) (tol : Q), potential <> [] ->
  exists segs, split_cycles_by_return_to_start potential tol = Some segs /\
    tiles 0 segs (length potential) /\
    (forall s e, In (s, e) (removelast segs) ->
       (Qabs (nth e potential 0 - nth 0 potential 0) < tol)%Q /\ e - s > 10) /\
    (forall s e, In (s, e) segs -> forall k, s < k < e ->
       ~ ((Qabs (nth k potential 0 - nth 0 potential 0) < tol)%Q /\ k - s > 10)).
Proof.
  split; [reflexivity|].
  intros potential tol Hne.
  destruct (split_cycles_shape potential tol Hne)
    as (segs & st & Hsplit & Hst & Hlast & Ht & Hok).
  exists (segs ++ [(st, length potential)]). split; [exact Hsplit|].
  split; [apply tiles_snoc; assumption|].
  rewrite removelast_last. split.
  - intros s e Hin. apply returns_to_start_spec.
    rewrite Forall_forall in Hok. exact (closed_ok_rts _ _ _ _ (Hok _ Hin)).
  - intros s e Hin k Hk Hcond. apply returns_to_start_spec in Hcond.
    apply in_app_or in Hin as [Hin|[Heq|[]]].
    + rewrite Forall_forall in Hok. destruct (Hok _ Hin) as (_ & _ & Hno).
      rewrite (Hno k Hk) in Hcond. discriminate.
    + injection Heq as <- <-. rewrite (Hlast k Hk) in Hcond. discriminate.
Qed.

(** C2, refuted as stated: the code has no [min_length] parameter; with its
    fixed minimum of 10 the spec's example [[0,1,2,3,0,1,2,3,0]] is not split
    into [[(0,4),(4,8),(8,9)]]. *)
Lemma split_cycles_min_length_3_counterexample :
  split_cycles_by_return_to_start [0; 1; 2; 3; 0; 1; 2; 3; 0]%Q default_tol
  <> Some [(0, 4); (4, 8); (8, 9)].
Proof. vm_compute. discriminate. Qed.

(** C3: a single point gives the one segment [(0,1)], and a non-empty
    sequence with no return-to-start event gives the one segment spanning it;
    the empty sequence makes the segmenter raise [IndexError] (it returns
    [None]) instead of yielding at most one segment. *)
Theorem split_cycles_edge_cases :
  (forall tol, split_cycles_by_return_to_start [] tol = None) /\
  split_cycles_by_return_to_start [5%Q] default_tol = Some [(0, 1)] /\
  (forall (potential : list Q) (tol : Q), potential <> [] ->
   (forall k, 0 < k < length potential ->
      ~ ((Qabs (nth k potential 0 - nth 0 potential 0) < tol)%Q /\ k > 10)) ->
   split_cycles_by_return_to_start potential tol = Some [(0, length potential)]).
Proof.
  split; [reflexivity|]. split; [reflexivity|].
  intros potential tol Hne Hnone.
  destruct (split_cycles_shape potential tol Hne)
    as (segs & st & Hsplit & Hst & _ & Ht & Hok).
  rewrite Hsplit. destruct segs as [|[s e] rest].
  - simpl in Ht. subst. reflexivity.
  - exfalso.
    destruct (tiles_bounds _ 0 st Ht s e (or_introl eq_refl)) as (_ & _ & He).
    simpl in Ht. destruct Ht as (-> & Hse & _).
    inversion Hok as [|? ? Hfirst _]; subst.
    apply closed_ok_rts, returns_to_start_spec in Hfirst.
    apply (Hnone e); [lia|].
    rewrite Nat.sub_0_r in Hfirst. exact Hfirst.
Qed.

(** C10: on a non-empty sequence every segment is non-empty, and every
    segment but the last is longer than 10 points. *)
Theorem split_cycles_segment_lengths (potential : list Q) (tol : Q) :
  potential <> [] ->
  exists segs, split_cycles_by_return_to_start potential tol = Some segs /\
    (forall s e, In (s, e) segs -> s < e) /\
    exists init last, segs = init ++ [last] /\
      forall s e, In (s, e) init -> e - s > 10.
Proof.
  intro Hne.
  destruct (split_cycles_shape potential tol Hne)
    as (segs & st & Hsplit & Hst & _ & Ht & Hok).
  exists (segs ++ [(st, length potential)]). split; [exact Hsplit|]. split.
  - intros s e Hin.
    apply (tiles_bounds _ 0 (length potential)) in Hin; [lia|].
    apply tiles_snoc; assumption.
  - exists segs, (st, length potential). split; [reflexivity|].
    intros s e Hin. rewrite Forall_forall in Hok.
    destruct (Hok _ Hin) as (? & _). lia.
Qed.

Lemma split_cycles_segment_lengths_witness :
  [0; 1; 2; 3; 4; 5; 6; 7; 8; 9; 10; 11; 0; 1]%Q <> [] /\
  exists segs, split_cycles_by_return_to_start
                 [0; 1; 2; 3; 4; 5; 6; 7; 8; 9; 10; 11; 0; 1]%Q default_tol = Some segs /\
    (forall s e, In (s, e) segs -> s < e) /\
    exists init last, segs = init ++ [last] /\
      forall s e, In (s, e) init -> e - s > 10.
Proof.
  split; [discriminate|].
  apply split_cycles_segment_lengths. discriminate.
Defined.

(** ** The peak locator *)

Lemma Qltb_false (x y : Q) : Qltb x y = false -> (y <= x)%Q.
Proof.
  unfold Qltb. rewrite negb_false_iff. apply Qle_bool_iff.
Qed.

Lemma nth_snoc_lt (pre : list Q) (x : Q) (j : nat) :
  j < length pre -> nth j (pre ++ [x]) 0%Q = nth j pre 0%Q.
Proof. intro H. apply app_nth1. exact H. Qed.

Lemma nth_snoc_eq (pre : list Q) (x : Q) :
  nth (length pre) (pre ++ [x]) 0%Q = x.
Proof. rewrite app_nth2, Nat.sub_diag by lia. reflexivity. Qed.

Lemma argmax_from_spec (t pre : list Q) (bi : nat) (best : Q) :
  bi < length pre -> nth bi pre 0%Q = best ->
  (forall j, j < length pre -> (nth j pre 0 <= best)%Q) ->
  (forall j, j < bi -> (nth j pre 0 < best)%Q) ->
  let l := pre ++ t in
  let k := argmax_from bi best (length pre) t in
  k < length l /\ (forall j, j < length l -> (nth j l 0 <= nth k l 0)%Q) /\
  (forall j, j < k -> (nth j l 0 < nth k l 0)%Q).
Proof.
  revert pre bi best.
  induction t as [|x t IH]; intros pre bi best Hbi Hbest Hle Hlt; simpl.
  - rewrite app_nil_r, Hbest. auto.
  - replace (pre ++ x :: t) with ((pre ++ [x]) ++ t) by (rewrite <- app_assoc; reflexivity).
    assert (Hlen : length (pre ++ [x]) = S (length pre))
      by (rewrite length_app; simpl; lia).
    destruct (Qltb best x) eqn:E.
    + apply Qltb_spec in E.
      rewrite <- Hlen. apply IH.
      * lia.
      * apply nth_snoc_eq.
      * intros j Hj. rewrite Hlen in Hj.
        destruct (Nat.eq_dec j (length pre)) as [->|Hne].
        -- rewrite nth_snoc_eq. apply Qle_refl.
        -- rewrite nth_snoc_lt by lia. apply Qlt_le_weak.
           apply (Qle_lt_trans _ best); [apply Hle; lia | exact E].
      * intros j Hj. rewrite nth_snoc_lt by lia.
        apply (Qle_lt_trans _ best); [apply Hle; lia | exact E].
    + apply Qltb_false in E.
      rewrite <- Hlen. apply IH.
      * lia.
      * rewrite nth_snoc_lt by lia. exact Hbest.
      * intros j Hj. rewrite Hlen in Hj.
        destruct (Nat.eq_dec j (length pre)) as [->|Hne].
        -- rewrite nth_snoc_eq. exact E.
        -- rewrite nth_snoc_lt by lia. apply Hle. lia.
      * intros j Hj. rewrite nth_snoc_lt by lia. apply Hlt. exact Hj.
Qed.

Lemma argmin_from_spec (t pre : list Q) (bi : nat) (best : Q) :
  bi < length pre -> nth bi pre 0%Q = best ->
  (forall j, j < length pre -> (best <= nth j pre 0)%Q) ->
  (forall j, j < bi -> (best < nth j pre 0)%Q) ->
  let l := pre ++ t in
  let k := argmin_from bi best (length pre) t in
  k < length l /\ (forall j, j < length l -> (nth k l 0 <= nth j l 0)%Q) /\
  (forall j, j < k -> (nth k l 0 < nth j l 0)%Q).
Proof.
  revert pre bi best.
  induction t as [|x t IH]; intros pre bi best Hbi Hbest Hle Hlt; simpl.
  - rewrite app_nil_r, Hbest. auto.
  - replace (pre ++ x :: t) with ((pre ++ [x]) ++ t) by (rewrite <- app_assoc; reflexivity).
    assert (Hlen : length (pre ++ [x]) = S (length pre))
      by (rewrite length_app; simpl; lia).
    destruct (Qltb x best) eqn:E.
    + apply Qltb_spec in E.
      rewrite <- Hlen. apply IH.
      * lia.
      * apply nth_snoc_eq.
      * intros j Hj. rewrite Hlen in Hj.
        destruct (Nat.eq_dec j (length pre)) as [->|Hne].
        -- rewrite nth_snoc_eq. apply Qle_refl.
        -- rewrite nth_snoc_lt by lia. apply Qlt_le_weak.
           apply (Qlt_le_trans _ best); [exact E | apply Hle; lia].
      * intros j Hj. rewrite nth_snoc_lt by lia.
        apply (Qlt_le_trans _ best); [exact E | apply Hle; lia].
    + apply Qltb_false in E.
      rewrite <- Hlen. apply IH.
      * lia.
      * rewrite nth_snoc_lt by lia. exact Hbest.
      * intros j Hj. rewrite Hlen in Hj.
        destruct (Nat.eq_dec j (length pre)) as [->|Hne].
        -- rewrite nth_snoc_eq. exact E.
        -- rewrite nth_snoc_lt by lia. apply Hle. lia.
      * intros j Hj. rewrite nth_snoc_lt by lia. apply Hlt. exact Hj.
Qed.

(** [np.argmax]: the first index of a maximum. *)
Lemma argmax_spec (l : list Q) :
  l <> [] ->
  exists k, argmax l = Some k /\ k < length l /\
    (forall j, j < length l -> (nth j l 0 <= nth k l 0)%Q) /\
    (forall j, j < k -> (nth j l 0 < nth k l 0)%Q).
Proof.
  destruct l as [|x t]; [congruence|]. intros _.
  exists (argmax_from 0 x 1 t). split; [reflexivity|].
  apply (argmax_from_spec t [x] 0 x); simpl; try reflexivity; try lia.
  intros j Hj. destruct j; [apply Qle_refl|lia].
Qed.

(** [np.argmin]: the first index of a minimum. *)
Lemma argmin_spec (l : list Q) :
  l <> [] ->
  exists k, argmin l = Some k /\ k < length l /\
    (forall j, j < length l -> (nth k l 0 <= nth j l 0)%Q) /\
    (forall j, j < k -> (nth k l 0 < nth j l 0)%Q).
Proof.
  destruct l as [|x t]; [congruence|]. intros _.
  exists (argmin_from 0 x 1 t). split; [reflexivity|].
  apply (argmin_from_spec t [x] 0 x); simpl; try reflexivity; try lia.
  intros j Hj. destruct j; [apply Qle_refl|lia].
Qed.

(** ** Reasoning about the monad *)

Lemma bind_inr {A B} (m : M A) (k : A -> M B) (w w' : world) (b : B) :
  bind m k w = (inr b, w') -> exists a w1, m w = (inr a, w1) /\ k a w1 = (inr b, w').
Proof.
  unfold bind. destruct (m w) as [[e|a] w1]; intro H; [discriminate|].
  exists a, w1. split; [reflexivity|exact H].
Qed.

Lemma bind_step {A B} (m : M A) (k : A -> M B) (w w1 : world) (a : A) :
  m w = (inr a, w1) -> bind m k w = k a w1.
Proof. intro H. unfold bind. rewrite H. reflexivity. Qed.

Ltac peel_as H a Ha :=
  cbv beta iota zeta delta [andb negb] in H;
  apply bind_inr in H; destruct H as (a & ? & Ha & H).

Ltac peel_w H a w1 Ha :=
  cbv beta iota zeta delta [andb negb] in H;
  apply bind_inr in H; destruct H as (a & w1 & Ha & H).

Ltac peel H :=
  cbv beta iota zeta delta [andb negb] in H;
  match type of H with
  | bind _ _ _ = (inr _, _) =>
      let a := fresh "a" in let w1 := fresh "w" in let Hm := fresh "Hm" in
      apply bind_inr in H; destruct H as (a & w1 & Hm & H)
  end.

Lemma for_each_forall {A} (P : series -> Prop) (l : list A) (f : A -> M (list series)) :
  (forall x w r w', f x w = (inr r, w') -> Forall P r) ->
  forall w r w', for_each l f w = (inr r, w') -> Forall P r.
Proof.
  intros Hf. induction l as [|x t IH]; simpl; intros w r w' H.
  - injection H as <- _. constructor.
  - peel H. peel H. injection H as <- _.
    apply Forall_app. split; [exact (Hf _ _ _ _ Hm) | exact (IH _ _ _ Hm0)].
Qed.

Lemma read_cv_data_table (k : nat) (u : upload) (fr : frame) (w : world) :
  nth_error (uploads w) k = Some u -> read_csv u = Table fr ->
  read_cv_data k w =
  (inr (df_get fr "x" r_x, df_get fr "y" r_y,
        unit_of fr "x_unit" r_x_unit "V", unit_of fr "y_unit" r_y_unit "A"),
   {| uploads := set_nth k (consumed_upload u) (uploads w); log := log w |}).
Proof.
  intros Hk Hr. unfold read_cv_data, bind, get_upload. rewrite Hk.
  simpl. rewrite Hr. reflexivity.
Qed.

Lemma read_cv_data_empty (k : nat) (u : upload) (w : world) :
  nth_error (uploads w) k = Some u -> read_csv u = EmptyData ->
  read_cv_data k w =
  (inr (None, None, "V"%string, "A"%string),
   {| uploads := set_nth k (consumed_upload u) (uploads w);
      log := log w ++ [Warning_empty (u_name u)] |}).
Proof.
  intros Hk Hr. unfold read_cv_data, bind, get_upload. rewrite Hk.
  simpl. rewrite Hr. reflexivity.
Qed.

Lemma curves_single_split_lines (sg : list Q -> nat -> nat -> option (list Q))
    (potential current : list Q) (nm : string) (segs : list (nat * nat))
    (sel : list nat) (smooth : bool) :
  forall w r w',
  for_each sel (fun i =>
    let '(start, stop) := nth i segs (0, 0) in
    let c := Tab10 (i mod tab10_N) in
    let lbl := (nm ++ " cycle " ++ show_nat (i + 1))%string in
    let raw := line lbl c (slice potential start stop) (slice current start stop) in
    if smooth then
      let* x_smooth := smooth_seq sg (slice potential start stop) in
      let* y_smooth := smooth_seq sg (slice current start stop) in
      ret [raw; line (lbl ++ " smoothed") c x_smooth y_smooth]
    else ret [raw]) w = (inr r, w') ->
  Forall (fun s => s_style s = Line) r.
Proof.
  apply for_each_forall. intros i w r w'.
  destruct (nth i segs (0, 0)) as [start stop]. intro H.
  destruct smooth.
  - peel H. peel H. injection H as <- _. repeat constructor.
  - injection H as <- _. repeat constructor.
Qed.

(** ** Claim about the peak locator *)

(** C7: the peak locator is [(np.argmax(current), np.argmin(current))]:
    first index of a maximum and first index of a minimum of the whole
    current sequence; [locate_peaks([1,5,2,-3,0]) = (1, 3)]; with auto-split
    on no peak marker is plotted, and with peak marking on and auto-split off
    the two markers are at the argmax and the argmin of the file's current. *)
Theorem peak_locator_argmax_argmin :
  (argmax [1; 5; 2; -3; 0]%Q = Some 1 /\ argmin [1; 5; 2; -3; 0]%Q = Some 3) /\
  (forall current : list Q, current <> [] ->
   (exists k, argmax current = Some k /\ k < length current /\
      (forall j, j < length current -> (nth j current 0 <= nth k current 0)%Q) /\
      (forall j, j < k -> (nth j current 0 < nth k current 0)%Q)) /\
   (exists k, argmin current = Some k /\ k < length current /\
      (forall j, j < length current -> (nth k current 0 <= nth j current 0)%Q) /\
      (forall j, j < k -> (nth k current 0 < nth j current 0)%Q))) /\
  (forall ms sg k label smooth mark_peaks w fig w',
     plot_single_cv ms sg k label smooth mark_peaks true w = (inr fig, w') ->
     Forall (fun s => s_style s = Line) (f_series fig)) /\
  (forall ms sg k label smooth w fig w' u fr potential current,
     nth_error (uploads w) k = Some u -> read_csv u = Table fr ->
     df_get fr "x" r_x = Some potential -> df_get fr "y" r_y = Some current ->
     plot_single_cv ms sg k label smooth true false w = (inr fig, w') ->
     exists curves ox_idx red_idx,
       argmax current = Some ox_idx /\ argmin current = Some red_idx /\
       f_series fig = curves ++
         [marker "Ox peak" (Named "r") (nth ox_idx potential 0%Q) (nth ox_idx current 0%Q);
          marker "Red peak" (Named "b") (nth red_idx potential 0%Q) (nth red_idx current 0%Q)]).
Proof.
  split; [split; reflexivity|]. split.
  { intros current Hne. split; [apply argmax_spec | apply argmin_spec]; exact Hne. }
  split.
  - intros ms sg k label smooth mark_peaks w fig w' H.
    unfold plot_single_cv in H. peel H.
    destruct a as [[[[p|] [c|]] xu] yu]; try discriminate.
    peel H. peel H. peel Hm1.
    apply curves_single_split_lines in Hm1.
    peel H. cbv [ret] in H. injection H as <- _. simpl.
    destruct mark_peaks; cbv [ret] in Hm3; injection Hm3 as <- _;
      rewrite app_nil_r; exact Hm1.
  - intros ms sg k label smooth w fig w' u fr potential current Hk Hr Hx Hy H.
    unfold plot_single_cv in H. peel H.
    rewrite (read_cv_data_table k u fr w Hk Hr) in Hm.
    injection Hm as <- _. rewrite Hx, Hy in H.
    peel_as H u' Hu. peel_as H curves Hcurves. peel_as H peaks Hpeaks.
    cbv [ret] in H. injection H as <- _. simpl.
    destruct (argmax current) as [ox|]; [|discriminate].
    peel_as Hpeaks ox' Hox. cbv [of_option ret] in Hox. injection Hox as <- _.
    destruct (argmin current) as [red|]; [|discriminate].
    peel_as Hpeaks red' Hred. cbv [of_option ret] in Hred. injection Hred as <- _.
    cbv [ret] in Hpeaks. injection Hpeaks as <- _.
    exists curves, ox, red. auto.
Qed.

(** ** Frame properties: what an operation leaves unchanged in the world *)

Section Kept.

Variable R : world -> world -> Prop.
Hypothesis R_refl : forall w, R w w.
Hypothesis R_trans : forall w1 w2 w3, R w1 w2 -> R w2 w3 -> R w1 w3.

Lemma kept_ret {A} (a : A) : kept R (ret a).
Proof. intros w r w' H. injection H as _ <-. apply R_refl. Qed.

Lemma kept_raise {A} (e : exn) : kept R (@raise A e).
Proof. intros w r w' H. injection H as _ <-. apply R_refl. Qed.

Lemma kept_bind {A B} (m : M A) (k : A -> M B) :
  kept R m -> (forall a, kept R (k a)) -> kept R (bind m k).
Proof.
  intros Hm Hk w r w' H. unfold bind in H.
  destruct (m w) as [[e|a] w1] eqn:E.
  - injection H as _ <-. exact (Hm _ _ _ E).
  - exact (R_trans _ _ _ (Hm _ _ _ E) (Hk a _ _ _ H)).
Qed.

Lemma kept_of_option {A} (e : exn) (o : option A) : kept R (of_option e o).
Proof. destruct o; [apply kept_ret | apply kept_raise]. Qed.

Lemma kept_get_upload (k : nat) : kept R (get_upload k).
Proof.
  intros w r w' H. unfold get_upload in H.
  destruct (nth_error (uploads w) k); injection H as _ <-; apply R_refl.
Qed.

Lemma kept_smooth_seq sg (xs : list Q) : kept R (smooth_seq sg xs).
Proof. apply kept_of_option. Qed.

Lemma kept_for_each {A} (l : list A) (f : A -> M (list series)) :
  (forall x, In x l -> kept R (f x)) -> kept R (for_each l f).
Proof.
  intros Hf. induction l as [|x t IH]; simpl.
  - apply kept_ret.
  - apply kept_bind; [apply Hf; left; reflexivity|]. intro s.
    apply kept_bind; [apply IH; intros y Hy; apply Hf; right; exact Hy|].
    intro s'. apply kept_ret.
Qed.

Ltac solve_kept :=
  repeat (cbv beta iota zeta;
    match goal with
    | |- kept _ (bind _ _) => apply kept_bind; [|intro]
    | |- kept _ (ret _) => apply kept_ret
    | |- kept _ (raise _) => apply kept_raise
    | |- kept _ (of_option _ _) => apply kept_of_option
    | |- kept _ (smooth_seq _ _) => apply kept_smooth_seq
    | |- kept _ (get_upload _) => apply kept_get_upload
    | |- kept _ (for_each _ _) => apply kept_for_each; intros ? ?
    | |- kept _ (match ?x with _ => _ end) => destruct x
    | |- kept _ (read_cv_data _) => assumption
    end).

(** One iteration of the overlay loop changes the world only through its
    call of [read_cv_data]. *)
Lemma kept_multi_file_series ms sg smooth selected_files auto_split (i : nat) :
  kept R (read_cv_data i) ->
  kept R (multi_file_series ms sg smooth selected_files auto_split i).
Proof. intro Hread. unfold multi_file_series. solve_kept. Qed.

Lemma bind_cases {A B} (m : M A) (k : A -> M B) (w w' : world) r :
  bind m k w = (r, w') ->
  (exists e, m w = (inl e, w')) \/ (exists a w1, m w = (inr a, w1) /\ k a w1 = (r, w')).
Proof.
  unfold bind. destruct (m w) as [[e|a] w1]; intro H.
  - left. injection H as _ <-. eauto.
  - right. eauto.
Qed.

(** In an overlay iteration on a selected file, everything after the call of
    [read_cv_data] relates the world it leaves to the final world by [R]. *)
Lemma multi_file_series_after_read ms sg smooth selected_files auto_split
    (i : nat) (u : upload) (w w' : world) r :
  nth_error (uploads w) i = Some u ->
  (match selected_files with [] => false | _ => true end
   && negb (existsb (String.eqb (u_name u)) selected_files)) = false ->
  multi_file_series ms sg smooth selected_files auto_split i w = (r, w') ->
  (exists e, read_cv_data i w = (inl e, w')) \/
  (exists a w1, read_cv_data i w = (inr a, w1) /\ R w1 w').
Proof.
  intros Hk Hsel H. unfold multi_file_series in H.
  rewrite (bind_step _ _ w w u) in H by (unfold get_upload; rewrite Hk; reflexivity).
  cbv beta in H. rewrite Hsel in H.
  destruct (bind_cases _ _ _ _ _ H) as [He|(a & w1 & Ha & Hk')]; [left; exact He|].
  right. exists a, w1. split; [exact Ha|]. clear H Ha. revert w1 r w' Hk'.
  change (kept R ((fun '(potential, current, _, _) =>
    match potential, current with
    | Some potential, Some current =>
      if auto_split then
        let* segments := of_option IndexError
                           (split_cycles_by_return_to_start potential default_tol) in
        let selected_cycles := select_cycles ms segments (W_file_cycles (u_name u)) in
        for_each selected_cycles (fun j =>
          let '(start, stop) := nth j segments (0, 0) in
          let c := Tab10 ((i + j) mod tab10_N) in
          let lbl := (u_name u ++ " cycle " ++ show_nat (j + 1))%string in
          let raw := line lbl c (slice potential start stop) (slice current start stop) in
          if smooth then
            let* x_smooth := smooth_seq sg (slice potential start stop) in
            let* y_smooth := smooth_seq sg (slice current start stop) in
            ret [raw; line (lbl ++ " smoothed") c x_smooth y_smooth]
          else ret [raw])
      else
        let c := Tab10 (i mod tab10_N) in
        let raw := line (replace_csv (u_name u) ++ " (raw)") c potential current in
        if smooth then
          let* x_smooth := smooth_seq sg potential in
          let* y_smooth := smooth_seq sg current in
          ret [raw; line (replace_csv (u_name u) ++ " (smoothed)") c x_smooth y_smooth]
        else ret [raw]
    | _, _ => ret []
    end) a)).
  solve_kept.
Qed.

End Kept.

Lemma set_nth_other {A} (l : list A) (k j : nat) (x : A) :
  j <> k -> nth_error (set_nth k x l) j = nth_error l j.
Proof.
  revert k j. induction l as [|y t IH]; intros [|k] [|j] Hne; simpl;
    try reflexivity; try lia.
  apply IH. lia.
Qed.

Lemma set_nth_same {A} (l : list A) (k : nat) (x y : A) :
  nth_error l k = Some y -> nth_error (set_nth k x l) k = Some x.
Proof.
  revert k. induction l as [|z t IH]; intros [|k] H; simpl in *;
    try discriminate; auto.
Qed.

Lemma set_nth_names (l : list upload) (k : nat) (u : upload) :
  nth_error l k = Some u ->
  map u_name (set_nth k (consumed_upload u) l) = map u_name l.
Proof.
  revert k. induction l as [|z t IH]; intros [|k] H; simpl in *;
    try discriminate.
  - injection H as ->. reflexivity.
  - f_equal. apply IH. exact H.
Qed.

(** What [read_cv_data k] does to the uploads: it marks [files[k]] read. *)
Lemma read_cv_data_world (k : nat) (w w' : world) r :
  read_cv_data k w = (r, w') ->
  (nth_error (uploads w) k = None /\ w' = w) \/
  (exists u, nth_error (uploads w) k = Some u /\
             uploads w' = set_nth k (consumed_upload u) (uploads w)).
Proof.
  unfold read_cv_data, bind, get_upload.
  destruct (nth_error (uploads w) k) as [u|] eqn:Hk.
  - intro H. right. exists u. split; [reflexivity|].
    simpl in H. destruct (read_csv u); injection H as _ <-; reflexivity.
  - intro H. left. injection H as _ <-. auto.
Qed.

Lemma read_cv_data_same_names (k : nat) : kept same_names (read_cv_data k).
Proof.
  intros w r w' H. unfold same_names.
  destruct (read_cv_data_world k w w' r H) as [[_ ->]|(u & Hk & Hw')].
  - reflexivity.
  - rewrite Hw'. symmetry. apply set_nth_names. exact Hk.
Qed.

Lemma read_cv_data_same_first (k : nat) : k <> 0 -> kept same_first (read_cv_data k).
Proof.
  intros Hk0 w r w' H. unfold same_first.
  destruct (read_cv_data_world k w w' r H) as [[_ ->]|(u & Hk & Hw')].
  - reflexivity.
  - rewrite Hw'. symmetry. apply set_nth_other. lia.
Qed.

Lemma multi_file_series_same_names ms sg smooth selected_files auto_split (i : nat) :
  kept same_names (multi_file_series ms sg smooth selected_files auto_split i).
Proof.
  apply kept_multi_file_series.
  - intro w. reflexivity.
  - intros w1 w2 w3 H12 H23. unfold same_names in *. congruence.
  - apply read_cv_data_same_names.
Qed.

Lemma multi_file_series_same_first ms sg smooth selected_files auto_split (i : nat) :
  i <> 0 -> kept same_first (multi_file_series ms sg smooth selected_files auto_split i).
Proof.
  intro Hi. apply kept_multi_file_series.
  - intro w. reflexivity.
  - intros w1 w2 w3 H12 H23. unfold same_first in *. congruence.
  - apply read_cv_data_same_first. exact Hi.
Qed.

Lemma selected_passes (selected_files : list string) (name : string) :
  selected_files = [] \/ In name selected_files ->
  (match selected_files with [] => false | _ => true end
   && negb (existsb (String.eqb name) selected_files)) = false.
Proof.
  intros [->|Hin]; [reflexivity|].
  destruct selected_files as [|s t]; [reflexivity|].
  change ((true && negb (existsb (String.eqb name) (s :: t)))%bool = false).
  rewrite andb_true_l. apply negb_false_iff, existsb_exists. exists name.
  split; [exact Hin | apply String.eqb_refl].
Qed.

(** An overlay iteration on a selected file whose loader result lacks the
    potential or the current plots nothing and goes on. *)
Lemma multi_file_series_no_curve ms sg smooth selected_files auto_split
    (i : nat) (w w1 : world) (u : upload) p c xu yu :
  nth_error (uploads w) i = Some u ->
  selected_files = [] \/ In (u_name u) selected_files ->
  read_cv_data i w = (inr (p, c, xu, yu), w1) ->
  p = None \/ c = None ->
  multi_file_series ms sg smooth selected_files auto_split i w = (inr [], w1).
Proof.
  intros Hk Hsel Hread Hpc. unfold multi_file_series.
  rewrite (bind_step _ _ w w u) by (unfold get_upload; rewrite Hk; reflexivity).
  cbv beta. rewrite (selected_passes _ _ Hsel).
  rewrite (bind_step _ _ _ _ _ Hread). cbv beta iota.
  destruct Hpc as [->| ->]; [|destruct p]; reflexivity.
Qed.

Lemma for_each_skip (f : nat -> M (list series)) (i : nat) (rest : list nat)
    (w w1 : world) :
  f i w = (inr [], w1) -> for_each (i :: rest) f w = for_each rest f w1.
Proof.
  intro H. simpl. rewrite (bind_step _ _ _ _ _ H). unfold bind.
  destruct (for_each rest f w1) as [[e|s] w2]; reflexivity.
Qed.

Lemma df_get_missing (fr : frame) (c : string) (proj : row -> Q) :
  has_column fr c = false -> df_get fr c proj = None.
Proof. unfold df_get. intros ->. reflexivity. Qed.

(** ** Claims about the loader and missing columns *)

(** C6: a file without the [x] or the [y] column makes [plot_single_cv]
    raise [ValueError("CSV missing required columns")], while in the overlay
    loop the (selected) file is read, plots nothing, adds no warning, and the
    loop goes on with the remaining files. *)
Theorem missing_columns_single_fatal_multi_skipped :
  (forall ms sg k label smooth mark_peaks auto_split w u fr,
     nth_error (uploads w) k = Some u -> read_csv u = Table fr ->
     has_column fr "x" = false \/ has_column fr "y" = false ->
     fst (plot_single_cv ms sg k label smooth mark_peaks auto_split w)
     = inl (ValueError "CSV missing required columns")) /\
  (forall ms sg smooth selected_files auto_split w i rest u fr,
     nth_error (uploads w) i = Some u -> read_csv u = Table fr ->
     has_column fr "x" = false \/ has_column fr "y" = false ->
     selected_files = [] \/ In (u_name u) selected_files ->
     for_each (i :: rest) (multi_file_series ms sg smooth selected_files auto_split) w
     = for_each rest (multi_file_series ms sg smooth selected_files auto_split)
         {| uploads := set_nth i (consumed_upload u) (uploads w); log := log w |}).
Proof.
  split.
  - intros ms sg k label smooth mark_peaks auto_split w u fr Hk Hr Hmiss.
    unfold plot_single_cv.
    rewrite (bind_step _ _ _ _ _ (read_cv_data_table k u fr w Hk Hr)). cbv beta iota.
    destruct Hmiss as [Hx|Hy].
    + rewrite (df_get_missing _ _ _ Hx). reflexivity.
    + rewrite (df_get_missing _ _ _ Hy). destruct (df_get fr "x" r_x); reflexivity.
  - intros ms sg smooth selected_files auto_split w i rest u fr Hk Hr Hmiss Hsel.
    apply for_each_skip.
    eapply multi_file_series_no_curve; [exact Hk | exact Hsel | |].
    + apply (read_cv_data_table i u fr w Hk Hr).
    + destruct Hmiss as [Hx|Hy]; [left|right]; apply df_get_missing; assumption.
Qed.

(** C5, refuted as stated: a CSV with a header and zero data rows does not
    give [(None, None, "V", "A")] (pandas finds the columns [x] and [y]: the
    loader returns them, empty), and an empty file in single-file mode is not
    skipped: [plot_single_cv] raises [ValueError]. *)
Lemma empty_csv_not_skipped_counterexample :
  fst (read_cv_data 0 header_only_world)
    = inr (Some [], Some [], "V"%string, "A"%string) /\
  fst (plot_single_cv keep_all savgol_raises 0 None false false false empty_file_world)
    = inl (ValueError "CSV missing required columns").
Proof. split; reflexivity. Qed.

(** C5 (as the code has it): on a file where [pd.read_csv] finds no columns
    the loader shows a warning and returns [(None, None, "V", "A")]; the
    overlay loop then skips that (selected) file and goes on, while
    [plot_single_cv] raises [ValueError] for it; a CSV with [x] and [y] but
    no [x_unit]/[y_unit] column gets the units ["V"] and ["A"]. *)
Theorem empty_csv_loader_defaults :
  (forall k u w, nth_error (uploads w) k = Some u -> read_csv u = EmptyData ->
     read_cv_data k w =
     (inr (None, None, "V"%string, "A"%string),
      {| uploads := set_nth k (consumed_upload u) (uploads w);
         log := log w ++ [Warning_empty (u_name u)] |})) /\
  (forall ms sg k label smooth mark_peaks auto_split w u,
     nth_error (uploads w) k = Some u -> read_csv u = EmptyData ->
     fst (plot_single_cv ms sg k label smooth mark_peaks auto_split w)
     = inl (ValueError "CSV missing required columns")) /\
  (forall ms sg smooth selected_files auto_split w i rest u,
     nth_error (uploads w) i = Some u -> read_csv u = EmptyData ->
     selected_files = [] \/ In (u_name u) selected_files ->
     for_each (i :: rest) (multi_file_series ms sg smooth selected_files auto_split) w
     = for_each rest (multi_file_series ms sg smooth selected_files auto_split)
         {| uploads := set_nth i (consumed_upload u) (uploads w);
            log := log w ++ [Warning_empty (u_name u)] |}) /\
  (forall k u fr w,
     nth_error (uploads w) k = Some u -> read_csv u = Table fr ->
     has_column fr "x" = true -> has_column fr "y" = true ->
     has_column fr "x_unit" = false -> has_column fr "y_unit" = false ->
     exists w', read_cv_data k w =
       (inr (Some (map r_x (rows fr)), Some (map r_y (rows fr)), "V"%string, "A"%string), w')).
Proof.
  split; [exact read_cv_data_empty|]. split; [|split].
  - intros ms sg k label smooth mark_peaks auto_split w u Hk Hr.
    unfold plot_single_cv.
    rewrite (bind_step _ _ _ _ _ (read_cv_data_empty k u w Hk Hr)). reflexivity.
  - intros ms sg smooth selected_files auto_split w i rest u Hk Hr Hsel.
    apply for_each_skip.
    eapply multi_file_series_no_curve; [exact Hk | exact Hsel | |left; reflexivity].
    apply (read_cv_data_empty i u w Hk Hr).
  - intros k u fr w Hk Hr Hx Hy Hxu Hyu.
    rewrite (read_cv_data_table k u fr w Hk Hr).
    unfold df_get, unit_of. rewrite Hx, Hy, Hxu, Hyu. eexists. reflexivity.
Qed.

(** ** Claims about the overlay plot *)

Lemma for_each_forall_inv {A} (I : world -> Prop) (P : series -> Prop)
    (l : list A) (f : A -> M (list series)) :
  (forall x w r w', I w -> f x w = (inr r, w') -> Forall P r /\ I w') ->
  forall w r w', I w -> for_each l f w = (inr r, w') -> Forall P r /\ I w'.
Proof.
  intros Hf. induction l as [|x t IH]; simpl; intros w r w' Hw H.
  - injection H as <- <-. auto.
  - peel H. peel H. cbv [ret] in H. injection H as <- <-.
    destruct (Hf _ _ _ _ Hw Hm) as [Hr1 Hw1].
    destruct (IH _ _ _ Hw1 Hm0) as [Hr2 Hw2].
    split; [apply Forall_app; split|]; assumption.
Qed.

Lemma get_upload_inr (k : nat) (w w1 : world) (u : upload) :
  get_upload k w = (inr u, w1) -> nth_error (uploads w) k = Some u /\ w1 = w.
Proof.
  unfold get_upload. destruct (nth_error (uploads w) k); intro H;
    [injection H as <- <-; auto | discriminate].
Qed.

Lemma multi_file_series_colors ms sg smooth selected_files (w0 : world) (i : nat) :
  forall w r w', same_names w0 w ->
  multi_file_series ms sg smooth selected_files true i w = (inr r, w') ->
  Forall (cycle_colored w0) r /\ same_names w0 w'.
Proof.
  intros w r w' Hw H.
  assert (Hw' : same_names w0 w').
  { pose proof (multi_file_series_same_names ms sg smooth selected_files true i w _ w' H).
    unfold same_names in *. congruence. }
  split; [|exact Hw'].
  unfold multi_file_series in H. peel_as H f Hf.
  apply get_upload_inr in Hf as [Hf ->].
  assert (Hname : exists u, nth_error (uploads w0) i = Some u /\ u_name u = u_name f).
  { unfold same_names in Hw.
    assert (E : nth_error (map u_name (uploads w0)) i = nth_error (map u_name (uploads w)) i)
      by (rewrite Hw; reflexivity).
    rewrite !nth_error_map, Hf in E.
    destruct (nth_error (uploads w0) i) as [u|]; [|discriminate].
    injection E as E. exists u. auto. }
  destruct Hname as (u & Hu & Hun).
  destruct selected_files as [|s0 sel'];
    [|destruct (existsb (String.eqb (u_name f)) (s0 :: sel'))];
    cbv beta iota in H;
    [ | | cbv [ret] in H; injection H as <- _; constructor ].
  all: peel_as H loaded Hload.
  all: destruct loaded as [[[[p|] [c|]] xu] yu];
         try (cbv [ret] in H; injection H as <- _; constructor).
  all: peel_as H segs Hsegs.
  all: revert H; apply for_each_forall.
  all: intros j w3 r3 w4; destruct (nth j segs (0, 0)) as [start stop]; intro H.
  all: destruct smooth;
         [ peel H; peel H; cbv [ret] in H; injection H as <- _
         | cbv [ret] in H; injection H as <- _ ];
         repeat constructor; exists i, j, u; rewrite Hun; auto.
Qed.

(** C8: in the overlay with auto-split, every curve belongs to cycle [j] of
    the file at index [i] of the uploaded files (its label says so) and has
    the color [tab10[(i + j) mod 10]]. *)
Theorem multi_cycle_colors ms sg smooth selected_files (w w' : world) (fig : figure) :
  plot_multi_cv ms sg smooth selected_files true w = (inr fig, w') ->
  Forall (cycle_colored w) (f_series fig).
Proof.
  intro H. unfold plot_multi_cv in H. peel_as H curves Hcurves.
  peel_as H units Hunits. destruct units as [xu yu].
  cbv [ret] in H. injection H as <- _. simpl.
  refine (proj1 (for_each_forall_inv (same_names w) _ _ _ _ _ _ _ _ Hcurves)).
  - intros i w1 r w2 Hw1 Hi. exact (multi_file_series_colors _ _ _ _ w i w1 r w2 Hw1 Hi).
  - reflexivity.
Qed.

Lemma read_cv_data_keeps_consumed (u0 : upload) (k : nat) :
  kept (keeps_consumed u0) (read_cv_data k).
Proof.
  intros w r w' H Hw. unfold keeps_consumed.
  destruct (read_cv_data_world k w w' r H) as [[_ ->]|(u & Hk & Hw')]; [exact Hw|].
  rewrite Hw'. destruct (Nat.eq_dec k 0) as [->|Hk0].
  - rewrite Hw in Hk. injection Hk as <-. apply (set_nth_same _ _ _ _ Hw).
  - rewrite set_nth_other by lia. exact Hw.
Qed.

Lemma multi_file_series_first ms sg smooth selected_files auto_split
    (u0 : upload) (w w' : world) r :
  nth_error (uploads w) 0 = Some u0 ->
  multi_file_series ms sg smooth selected_files auto_split 0 w = (r, w') ->
  nth_error (uploads w') 0 = Some (first_after_loop selected_files u0).
Proof.
  intros H0 H. unfold first_after_loop.
  destruct (match selected_files with [] => false | _ => true end
            && negb (existsb (String.eqb (u_name u0)) selected_files)) eqn:Hs.
  - unfold multi_file_series in H.
    rewrite (bind_step _ _ w w u0) in H by (unfold get_upload; rewrite H0; reflexivity).
    cbv beta in H. rewrite Hs in H. cbv [ret] in H. injection H as _ <-. exact H0.
  - assert (Hread : forall a w1, read_cv_data 0 w = (a, w1) ->
              nth_error (uploads w1) 0 = Some (consumed_upload u0)).
    { intros a w1 Ha.
      destruct (read_cv_data_world 0 w w1 a Ha) as [[Hn _]|(u & Hu & Hw1)];
        [congruence|].
      rewrite H0 in Hu. injection Hu as <-. rewrite Hw1. apply (set_nth_same _ _ _ _ H0). }
    destruct (multi_file_series_after_read (keeps_consumed u0)
                (fun w => fun Hw => Hw)
                (fun w1 w2 w3 H12 H23 Hw1 => H23 (H12 Hw1))
                ms sg smooth selected_files auto_split 0 u0 w w' r H0 Hs H)
      as [(e & He)|(a & w1 & Ha & Hk)].
    + exact (Hread _ _ He).
    + exact (Hk (Hread _ _ Ha)).
Qed.

Lemma overlay_loop_first ms sg smooth selected_files auto_split
    (u0 : upload) (w w' : world) r :
  nth_error (uploads w) 0 = Some u0 ->
  for_each (seq 0 (length (uploads w)))
    (multi_file_series ms sg smooth selected_files auto_split) w = (inr r, w') ->
  nth_error (uploads w') 0 = Some (first_after_loop selected_files u0).
Proof.
  intros H0 H.
  destruct (uploads w) as [|x t] eqn:Ew; [discriminate|].
  rewrite <- Ew in H0. simpl in H.
  peel_as H s0 Hs0. peel_as H s1 Hs1. cbv [ret] in H. injection H as _ <-.
  pose proof (multi_file_series_first _ _ _ _ _ u0 _ _ _ H0 Hs0) as Hb.
  assert (Hkeep : kept same_first
            (for_each (seq 1 (length t))
               (multi_file_series ms sg smooth selected_files auto_split))).
  { apply kept_for_each.
    - intro v. reflexivity.
    - intros v1 v2 v3 H12 H23. unfold same_first in *. congruence.
    - intros i Hi. apply in_seq in Hi. apply multi_file_series_same_first. lia. }
  rewrite <- (Hkeep _ _ _ Hs1). exact Hb.
Qed.

Lemma length_first {A} (l : list A) (x : A) :
  nth_error l 0 = Some x -> exists m, length l = S m.
Proof. destruct l; simpl; [discriminate|]. eauto. Qed.

Lemma read_cv_data_unparsable (k : nat) (u : upload) (w : world) :
  nth_error (uploads w) k = Some u -> read_csv u = Unparsable ->
  read_cv_data k w =
  (inl ParserError, {| uploads := set_nth k (consumed_upload u) (uploads w); log := log w |}).
Proof.
  intros Hk Hr. unfold read_cv_data, bind, get_upload. rewrite Hk.
  simpl. rewrite Hr. reflexivity.
Qed.

(** The second reading of [files[0]] after the loop. *)
Lemma multi_units_first (m : nat) (w w' : world) (u : upload) (xu yu : string) :
  nth_error (uploads w) 0 = Some u ->
  multi_units (S m) w = (inr (xu, yu), w') ->
  (xu, yu) = axis_units (read_csv u) /\
  (read_csv u = EmptyData -> log w' = log w ++ [Warning_empty (u_name u)]).
Proof.
  intros H0 H. cbv [multi_units] in H.
  destruct (read_csv u) as [| |fr] eqn:Hr.
  - rewrite (bind_step _ _ _ _ _ (read_cv_data_empty 0 u w H0 Hr)) in H.
    cbv [ret] in H. injection H as <- <- <-. split; reflexivity.
  - unfold bind in H. cbv beta in H.
    rewrite (read_cv_data_unparsable 0 u w H0 Hr) in H. discriminate.
  - rewrite (bind_step _ _ _ _ _ (read_cv_data_table 0 u fr w H0 Hr)) in H.
    unfold df_get in H. unfold axis_units.
    destruct (has_column fr "x"), (has_column fr "y");
      cbv [ret] in H; injection H as <- <- <-; (split; [reflexivity|discriminate]).
Qed.

Lemma existsb_eqb_In (s : string) (l : list string) :
  existsb (String.eqb s) l = true <-> In s l.
Proof.
  rewrite existsb_exists. split.
  - intros (x & Hx & E). apply String.eqb_eq in E. subst. exact Hx.
  - intro H. exists s. split; [exact H|apply String.eqb_refl].
Qed.

(** C9 (what the code does): the overlay's axis units come from a second
    call of the loader on [files[0]] after the loop, whether or not that file
    is selected. When it is selected (as all files are by default), the loop
    has already read its stream to the end, so the second [pd.read_csv] finds
    no columns: the labels are always ["Potential (V)"] and ["Current (A)"],
    whatever the file's units, and a warning that [files[0]] is empty is
    shown. When it is not selected, the units are those of that unplotted
    file. On [A.csv] (in [mV]) and [B.csv], both selected, the axis reads [V];
    with only [B.csv] selected it reads [mV]. *)
Theorem multi_units_second_read :
  (forall ms sg smooth selected_files auto_split (w w' : world) (fig : figure) (u0 : upload),
     nth_error (uploads w) 0 = Some u0 ->
     plot_multi_cv ms sg smooth selected_files auto_split w = (inr fig, w') ->
     (f_xlabel fig, f_ylabel fig)
       = axis_labels (axis_units (read_csv (first_after_loop selected_files u0))) /\
     ((selected_files = [] \/ In (u_name u0) selected_files) ->
        f_xlabel fig = "Potential (V)"%string /\ f_ylabel fig = "Current (A)"%string /\
        In (Warning_empty (u_name u0)) (log w')) /\
     (selected_files <> [] -> ~ In (u_name u0) selected_files ->
        (f_xlabel fig, f_ylabel fig) = axis_labels (axis_units (read_csv u0)))) /\
  (unit_of mv_frame "x_unit" r_x_unit "V" = "mV"%string /\
   match plot_multi_cv keep_all savgol_raises false [] false units_world with
   | (inr fig, w') => f_xlabel fig = "Potential (V)"%string /\ log w' = [Warning_empty "A.csv"]
   | (inl _, _) => False
   end /\
   match plot_multi_cv keep_all savgol_raises false ["B.csv"%string] false units_world with
   | (inr fig, _) => f_xlabel fig = "Potential (mV)"%string
   | (inl _, _) => False
   end).
Proof.
  split; [|vm_compute; repeat split].
  intros ms sg smooth sel auto_split w w' fig u0 H0 H.
  unfold plot_multi_cv in H. peel_w H c wa Hc. peel_w H un wb Hu. destruct un as [xu yu].
  cbv [ret] in H. injection H as <- ->. cbn [f_xlabel f_ylabel].
  pose proof (overlay_loop_first _ _ _ _ _ u0 _ _ _ H0 Hc) as Ha.
  destruct (length_first _ _ H0) as [m Hm]. rewrite Hm in Hu.
  destruct (multi_units_first m wa w' _ xu yu Ha Hu) as [Hunits Hlog].
  assert (Hlab : (("Potential (" ++ xu ++ ")")%string, ("Current (" ++ yu ++ ")")%string)
                 = axis_labels (axis_units (read_csv (first_after_loop sel u0))))
    by (rewrite <- Hunits; reflexivity).
  split; [exact Hlab|]. split.
  - intro Hsel.
    assert (Hf : first_after_loop sel u0 = consumed_upload u0).
    { unfold first_after_loop. destruct Hsel as [->|Hin]; [reflexivity|].
      apply existsb_eqb_In in Hin. rewrite Hin. destruct sel; reflexivity. }
    assert (He : read_csv (consumed_upload u0) = EmptyData) by reflexivity.
    rewrite Hf, He in Hunits, Hlog. cbn [axis_units] in Hunits.
    injection Hunits as -> ->. split; [reflexivity|]. split; [reflexivity|].
    rewrite (Hlog eq_refl). apply in_or_app. right. left. reflexivity.
  - intros Hne Hnin.
    assert (Hf : first_after_loop sel u0 = u0).
    { unfold first_after_loop.
      destruct (existsb (String.eqb (u_name u0)) sel) eqn:E.
      - apply existsb_eqb_In in E. contradiction.
      - destruct sel; [congruence|reflexivity]. }
    rewrite Hf in Hlab. exact Hlab.
Qed.

Lemma multi_cycle_colors_witness :
  exists fig w', plot_multi_cv keep_all savgol_raises false [] true cycles_world = (inr fig, w') /\
    Forall (cycle_colored cycles_world) (f_series fig).
Proof.
  do 2 eexists. split; [reflexivity|].
  eapply (multi_cycle_colors keep_all savgol_raises false [] cycles_world).
  reflexivity.
Defined.

(** ** The cycle selector *)

Lemma StronglySorted_filter_lt (f : nat -> bool) (l : list nat) :
  StronglySorted lt l -> StronglySorted lt (filter f l).
Proof.
  induction l as [|x t IH]; simpl; intro H; [constructor|].
  apply StronglySorted_inv in H as [Ht Hx].
  destruct (f x); [|exact (IH Ht)].
  constructor; [exact (IH Ht)|].
  rewrite Forall_forall in *. intros y Hy. apply filter_In in Hy as [Hy _]. auto.
Qed.

Lemma StronglySorted_seq (a n : nat) : StronglySorted lt (seq a n).
Proof.
  revert a. induction n as [|n IH]; intro a; simpl; constructor; [apply IH|].
  rewrite Forall_forall. intros y Hy. apply in_seq in Hy. lia.
Qed.

Lemma filter_all {A} (f : A -> bool) (l : list A) :
  (forall x, In x l -> f x = true) -> filter f l = l.
Proof.
  induction l as [|x t IH]; simpl; intro H; [reflexivity|].
  rewrite (H x (or_introl eq_refl)), IH; [reflexivity|]. intros y Hy. apply H. right. exact Hy.
Qed.

Lemma select_cycles_keep_all (segments : list (nat * nat)) (label : widget) :
  select_cycles keep_all segments label = seq 0 (length segments).
Proof.
  unfold select_cycles, keep_all. apply filter_all.
  intros i Hi. apply existsb_exists. exists (cycle_label i).
  split; [apply in_map; exact Hi | apply String.eqb_refl].
Qed.

(** X1: whatever the user keeps in the [st.multiselect], [select_cycles]
    returns cycle indices in strictly increasing order, each a valid index
    of [segments] (so [segments[i]] never fails), exactly those whose label
    was kept; when the user keeps the default (every label), it returns all
    the indices [0, ..., len(segments) - 1]. *)
Theorem select_cycles_sorted_in_range
    (ms : widget -> list string -> list string) (segments : list (nat * nat)) (label : widget) :
  StronglySorted lt (select_cycles ms segments label) /\
  (forall i, In i (select_cycles ms segments label) <->
     i < length segments /\
     In (cycle_label i) (ms label (map cycle_label (seq 0 (length segments))))) /\
  select_cycles keep_all segments label = seq 0 (length segments).
Proof.
  split; [apply StronglySorted_filter_lt, StronglySorted_seq|].
  split; [|apply select_cycles_keep_all].
  intro i. unfold select_cycles. rewrite filter_In, in_seq, existsb_exists.
  split.
  - intros (Hi & x & Hx & Heq). apply String.eqb_eq in Heq. subst x. split; [lia|exact Hx].
  - intros (Hi & Hx). split; [lia|]. exists (cycle_label i).
    split; [exact Hx | apply String.eqb_refl].
Qed.

(** ** Decimal labels *)

Lemma append_assoc_str (s1 s2 s3 : string) :
  ((s1 ++ s2) ++ s3)%string = (s1 ++ (s2 ++ s3))%string.
Proof. induction s1 as [|c s1 IH]; simpl; [reflexivity|]. rewrite IH. reflexivity. Qed.

Lemma digits_aux_app (fuel n : nat) (acc : string) :
  digits_aux fuel n acc = (digits_aux fuel n EmptyString ++ acc)%string.
Proof.
  revert n acc. induction fuel as [|f IH]; intros n acc; simpl; [reflexivity|].
  destruct (n <? 10); [reflexivity|].
  rewrite (IH (n / 10) (String _ acc)), (IH (n / 10) (String _ EmptyString)).
  rewrite append_assoc_str. reflexivity.
Qed.

Lemma digits_value_app (acc : nat) (s t : string) :
  digits_value acc (s ++ t) = digits_value (digits_value acc s) t.
Proof. revert acc. induction s as [|c s IH]; intro acc; simpl; auto. Qed.

Lemma digit_value (n : nat) : nat_of_ascii (ascii_of_nat (48 + n mod 10)) - 48 = n mod 10.
Proof.
  rewrite nat_ascii_embedding; [lia|].
  pose proof (Nat.mod_upper_bound n 10). lia.
Qed.

Lemma digits_aux_value (fuel n : nat) :
  n < fuel -> digits_value 0 (digits_aux fuel n EmptyString) = n.
Proof.
  revert n. induction fuel as [|f IH]; intros n Hn; [lia|]. cbn [digits_aux].
  destruct (n <? 10) eqn:E.
  - apply Nat.ltb_lt in E. cbn [digits_value]. rewrite digit_value.
    rewrite Nat.mod_small by exact E. reflexivity.
  - apply Nat.ltb_ge in E.
    rewrite digits_aux_app, digits_value_app, IH.
    + cbn [digits_value]. rewrite digit_value.
      pose proof (Nat.div_mod_eq n 10). lia.
    + apply Nat.lt_le_trans with n; [apply Nat.div_lt; lia | lia].
Qed.

Lemma show_nat_value (n : nat) : digits_value 0 (show_nat n) = n.
Proof. apply digits_aux_value. lia. Qed.

(** X2: the cycle labels [f"Cycle {i+1}"] are pairwise distinct, so each
    option of the cycle selector names one cycle. *)
Theorem cycle_label_injective (i j : nat) :
  cycle_label i = cycle_label j -> i = j.
Proof.
  unfold cycle_label. simpl. intro H.
  repeat (injection H as H).
  apply (f_equal (digits_value 0)) in H. rewrite !show_nat_value in H. lia.
Qed.

(** ** The loader *)

Lemma set_nth_length {A} (k : nat) (x : A) (l : list A) :
  length (set_nth k x l) = length l.
Proof.
  revert k. induction l as [|y t IH]; intros [|k]; simpl; auto.
Qed.

Lemma set_nth_id {A} (k : nat) (x : A) (l : list A) :
  nth_error l k = Some x -> set_nth k x l = l.
Proof.
  revert k. induction l as [|y t IH]; intros [|k] H; simpl in *; try discriminate.
  - injection H as ->. reflexivity.
  - f_equal. apply IH. exact H.
Qed.

(** X3: [read_cv_data] reads the uploaded stream to its end: reading the
    same upload again finds no columns, so the second call shows the
    "empty or invalid" warning for that file and returns
    [(None, None, "V", "A")], whatever the file holds. *)
Theorem read_cv_data_second_read (k : nat) (w w1 : world) r :
  read_cv_data k w = (inr r, w1) ->
  exists u, nth_error (uploads w) k = Some u /\
    read_cv_data k w1 =
    (inr (None, None, "V"%string, "A"%string),
     {| uploads := uploads w1; log := log w1 ++ [Warning_empty (u_name u)] |}).
Proof.
  intro H.
  destruct (read_cv_data_world k w w1 _ H) as [[Hn ->]|(u & Hk & Hw1)].
  - unfold read_cv_data, bind, get_upload in H. rewrite Hn in H. discriminate.
  - exists u. split; [exact Hk|].
    assert (Hk1 : nth_error (uploads w1) k = Some (consumed_upload u))
      by (rewrite Hw1; exact (set_nth_same _ _ _ _ Hk)).
    rewrite (read_cv_data_empty k _ w1 Hk1 eq_refl).
    replace (consumed_upload (consumed_upload u)) with (consumed_upload u) by reflexivity.
    rewrite (set_nth_id _ _ _ Hk1). reflexivity.
Qed.

(** ** File names in the labels *)

Lemma has_slash_app_slash (s t : string) : has_slash (s ++ String "/" t) = true.
Proof. induction s as [|c s IH]; simpl; [reflexivity|]. rewrite IH, orb_true_r. reflexivity. Qed.

Lemma basename_no_slash (s : string) : has_slash (basename s) = false.
Proof.
  induction s as [|c t IH]; simpl; [reflexivity|].
  destruct (has_slash t) eqn:Ht; [exact IH|].
  destruct (Ascii.eqb c "/") eqn:Hc; [exact Ht|]. simpl. rewrite Hc, Ht. reflexivity.
Qed.

Lemma basename_id (s : string) : has_slash s = false -> basename s = s.
Proof.
  destruct s as [|c t]; simpl; [reflexivity|]. intro H.
  apply orb_false_iff in H as [Hc Ht]. rewrite Ht, Hc. reflexivity.
Qed.

(** X5: [os.path.basename] as the legend of the single-file plot uses it:
    its result never contains a ["/"]; it keeps a name without ["/"] as it
    is; and for [dir + "/" + name] with [name] free of ["/"] it is [name]. *)
Theorem basename_spec :
  (forall s, has_slash (basename s) = false) /\
  (forall s, has_slash s = false -> basename s = s) /\
  (forall dir name, has_slash name = false ->
     basename (dir ++ String "/" name) = name).
Proof.
  split; [exact basename_no_slash|]. split; [exact basename_id|].
  intros dir name Hn. induction dir as [|c d IH]; simpl.
  - rewrite Hn. reflexivity.
  - rewrite has_slash_app_slash. exact IH.
Qed.

Lemma list_ascii_of_string_app (s t : string) :
  list_ascii_of_string (s ++ t) = list_ascii_of_string s ++ list_ascii_of_string t.
Proof. induction s as [|c s IH]; simpl; [reflexivity|]. rewrite IH. reflexivity. Qed.

Lemma drop_csv_cons4 (a b c d : ascii) (rest : list ascii) :
  drop_csv (a :: b :: c :: d :: rest) =
  if Ascii.eqb a "." && Ascii.eqb b "c" && Ascii.eqb c "s" && Ascii.eqb d "v"
  then drop_csv rest else a :: drop_csv (b :: c :: d :: rest).
Proof. reflexivity. Qed.

Lemma drop_csv_suffix_aux (n : nat) (l : list ascii) :
  length l < n ->
  drop_csv (l ++ ["."; "c"; "s"; "v"]%char) = drop_csv l.
Proof.
  revert l. induction n as [|n IH]; intros l Hl; [simpl in Hl; lia|].
  destruct l as [|a [|b [|c [|d rest]]]].
  1-4: cbn [app]; rewrite !drop_csv_cons4;
       repeat match goal with
              | |- context [Ascii.eqb ?x ?y] => is_var x; destruct (Ascii.eqb x y)
              end; reflexivity.
  cbn [app]. rewrite (drop_csv_cons4 a b c d).
  rewrite (drop_csv_cons4 a b c d rest).
  destruct (Ascii.eqb a "." && Ascii.eqb b "c" && Ascii.eqb c "s" && Ascii.eqb d "v").
  - apply IH. simpl in Hl. lia.
  - f_equal. change (b :: c :: d :: rest ++ ["."; "c"; "s"; "v"]%char)
      with ((b :: c :: d :: rest) ++ ["."; "c"; "s"; "v"]%char).
    apply IH. simpl in *. lia.
Qed.

Lemma drop_csv_no_dot (l : list ascii) :
  ~ In "."%char l -> drop_csv l = l.
Proof.
  induction l as [|a t IH]; intro Hl; [reflexivity|].
  destruct t as [|b [|c [|d rest]]]; try reflexivity.
  rewrite drop_csv_cons4.
  assert (Ha : Ascii.eqb a "." = false).
  { apply Ascii.eqb_neq. intro E. apply Hl. left. exact E. }
  rewrite Ha. simpl. f_equal. apply IH. intro Hin. apply Hl. right. exact Hin.
Qed.

(** X6: [name.replace('.csv', '')], the label stem of the overlay: appending
    [.csv] to a name does not change it, and a name without a dot is left
    as it is; hence [stem + ".csv"] gives [stem] for a dot-free [stem]. *)
Theorem replace_csv_spec :
  (forall s, replace_csv (s ++ ".csv") = replace_csv s) /\
  (forall s, ~ In "."%char (list_ascii_of_string s) -> replace_csv s = s).
Proof.
  split.
  - intro s. unfold replace_csv. rewrite list_ascii_of_string_app.
    f_equal. apply (drop_csv_suffix_aux (S (length (list_ascii_of_string s)))). lia.
  - intros s Hs. unfold replace_csv. rewrite drop_csv_no_dot by exact Hs.
    apply string_of_list_ascii_of_string.
Qed.

(** ** Slices and the cycles of a plot *)

Lemma firstn_add {A} (m k : nat) (l : list A) :
  firstn (m + k) l = firstn m l ++ firstn k (skipn m l).
Proof.
  revert l. induction m as [|m IH]; intros [|x t]; simpl; auto.
  - rewrite firstn_nil. reflexivity.
  - rewrite IH. reflexivity.
Qed.

Lemma slice_concat {A} (l : list A) (a e n : nat) :
  a <= e -> e <= n -> slice l a e ++ slice l e n = slice l a n.
Proof.
  unfold slice. intros Hae Hen.
  replace (n - a) with ((e - a) + (n - e)) by lia.
  rewrite firstn_add, skipn_skipn. replace (e - a + a) with e by lia. reflexivity.
Qed.

Lemma slice_all {A} (l : list A) : slice l 0 (length l) = l.
Proof. unfold slice. rewrite Nat.sub_0_r. apply firstn_all. Qed.

Lemma tiles_le (segs : list (nat * nat)) (a n : nat) : tiles a segs n -> a <= n.
Proof.
  revert a. induction segs as [|[s e] rest IH]; simpl; intros a Ht; [lia|].
  destruct Ht as (-> & Hlt & Ht). specialize (IH e Ht). lia.
Qed.

Lemma tiles_slices {A} (l : list A) (segs : list (nat * nat)) (a n : nat) :
  tiles a segs n ->
  concat (map (fun se => let '(s, e) := se in slice l s e) segs) = slice l a n.
Proof.
  revert a. induction segs as [|[s e] rest IH]; simpl; intros a Ht.
  - subst. unfold slice. rewrite Nat.sub_diag. reflexivity.
  - destruct Ht as (-> & Hlt & Ht). rewrite (IH e Ht).
    apply slice_concat; [lia | exact (tiles_le _ _ _ Ht)].
Qed.

Lemma map_nth_seq_all {A B} (h : A -> B) (l : list A) (d : A) :
  map (fun i => h (nth i l d)) (seq 0 (length l)) = map h l.
Proof.
  induction l as [|x t IH]; [reflexivity|]. cbn [length seq map]. f_equal.
  rewrite <- seq_shift, map_map. exact IH.
Qed.

Lemma split_cycles_tiles (potential : list Q) (tol : Q) (segs : list (nat * nat)) :
  split_cycles_by_return_to_start potential tol = Some segs ->
  tiles 0 segs (length potential).
Proof.
  intro H. destruct potential as [|v t] eqn:E; [discriminate|]. rewrite <- E in *.
  destruct (split_cycles_shape potential tol ltac:(congruence))
    as (segs0 & st & Hs & Hst & _ & Ht & _).
  rewrite Hs in H. injection H as <-. apply tiles_snoc; assumption.
Qed.

Lemma for_each_concat {A B} (h : series -> list B) (P : A -> list B)
    (l : list A) (f : A -> M (list series)) :
  (forall x w r w', f x w = (inr r, w') -> concat (map h r) = P x) ->
  forall w r w', for_each l f w = (inr r, w') -> concat (map h r) = concat (map P l).
Proof.
  intros Hf. induction l as [|x t IH]; simpl; intros w r w' H.
  - injection H as <- _. reflexivity.
  - peel H. peel H. cbv [ret] in H. injection H as <- _.
    rewrite map_app, concat_app, (Hf _ _ _ _ Hm), (IH _ _ _ Hm0). reflexivity.
Qed.

Lemma length_concat_units {A} (r : list A) :
  length (concat (map (fun _ => [tt]) r)) = length r.
Proof. induction r as [|x t IH]; simpl; [reflexivity|]. rewrite IH. reflexivity. Qed.

Lemma get_upload_after_read (k : nat) (u : upload) (w : world) :
  nth_error (uploads w) k = Some u ->
  get_upload k {| uploads := set_nth k (consumed_upload u) (uploads w); log := log w |}
  = (inr (consumed_upload u),
     {| uploads := set_nth k (consumed_upload u) (uploads w); log := log w |}).
Proof. intro Hk. unfold get_upload. cbn [uploads]. rewrite (set_nth_same _ _ _ _ Hk). reflexivity. Qed.

Lemma split_lines_concat (p c : list Q) (segs : list (nat * nat))
    (lbl : nat -> string) (col : nat -> color) (w w' : world) (r : list series) :
  for_each (seq 0 (length segs)) (fun i =>
    let '(start, stop) := nth i segs (0, 0) in
    ret [line (lbl i) (col i) (slice p start stop) (slice c start stop)]) w = (inr r, w') ->
  length r = length segs /\
  concat (map s_x r) = concat (map (fun se => let '(s, e) := se in slice p s e) segs) /\
  concat (map s_y r) = concat (map (fun se => let '(s, e) := se in slice c s e) segs).
Proof.
  intro H.
  pose proof H as H1. pose proof H as H2. pose proof H as H3.
  eapply (for_each_concat (fun _ => [tt]) (fun _ : nat => [tt])) in H1.
  2: { intros i v r' v'. destruct (nth i segs (0, 0)).
       intro Hf. cbv [ret] in Hf. injection Hf as <- _. reflexivity. }
  eapply (for_each_concat s_x
            (fun i => (fun se => let '(s, e) := se in slice p s e) (nth i segs (0, 0)))) in H2.
  2: { intros i v r' v'. destruct (nth i segs (0, 0)).
       intro Hf. cbv [ret] in Hf. injection Hf as <- _. apply app_nil_r. }
  eapply (for_each_concat s_y
            (fun i => (fun se => let '(s, e) := se in slice c s e) (nth i segs (0, 0)))) in H3.
  2: { intros i v r' v'. destruct (nth i segs (0, 0)).
       intro Hf. cbv [ret] in Hf. injection Hf as <- _. apply app_nil_r. }
  apply (f_equal (@length unit)) in H1.
  rewrite !length_concat_units, length_seq in H1.
  rewrite (map_nth_seq_all (fun se => let '(s, e) := se in slice p s e)) in H2.
  rewrite (map_nth_seq_all (fun se => let '(s, e) := se in slice c s e)) in H3.
  auto.
Qed.

(** X7: with auto-split on, smoothing off and the default cycle selection,
    a successful single-file plot draws one curve per detected cycle, and
    the curves, put end to end, are exactly the file's [x] and [y] columns:
    no point is dropped or drawn twice. *)
Theorem single_split_default_covers_data sg (k : nat) (label : option string)
    (mark_peaks : bool) (w w' : world) (fig : figure) (u : upload) (fr : frame) :
  nth_error (uploads w) k = Some u -> read_csv u = Table fr ->
  plot_single_cv keep_all sg k label false mark_peaks true w = (inr fig, w') ->
  exists segs, split_cycles_by_return_to_start (map r_x (rows fr)) default_tol = Some segs /\
    length (f_series fig) = length segs /\
    concat (map s_x (f_series fig)) = map r_x (rows fr) /\
    concat (map s_y (f_series fig)) = map r_y (rows fr).
Proof.
  intros Hk Hr H. unfold plot_single_cv in H.
  rewrite (bind_step _ _ _ _ _ (read_cv_data_table k u fr w Hk Hr)) in H.
  unfold df_get in H.
  destruct (has_column fr "x"), (has_column fr "y");
    cbv beta iota in H; try (cbv [raise] in H; discriminate).
  peel_as H u' Hu'. peel_as H curves Hcurves. peel_as H peaks Hpeaks.
  cbv [ret] in H. injection H as <- _. cbn [f_series].
  destruct mark_peaks; cbv [ret] in Hpeaks; injection Hpeaks as <- _; rewrite app_nil_r.
  all: peel_as Hcurves segs Hsegs.
  all: destruct (split_cycles_by_return_to_start (map r_x (rows fr)) default_tol)
         as [segs'|] eqn:Hsplit; cbv [of_option ret raise] in Hsegs;
       [injection Hsegs as -> _ | discriminate].
  all: rewrite select_cycles_keep_all in Hcurves.
  all: exists segs; split; [reflexivity|].
  all: pose proof (split_cycles_tiles _ _ _ Hsplit) as Ht.
  all: apply split_lines_concat in Hcurves as (Hlen & Hx & Hy).
  all: split; [exact Hlen|].
  all: assert (Ht' : tiles 0 segs (length (map r_y (rows fr))))
         by (rewrite length_map; rewrite length_map in Ht; exact Ht).
  all: rewrite Hx, Hy, (tiles_slices _ _ _ _ Ht), (tiles_slices _ _ _ _ Ht').
  all: split; apply slice_all.
Qed.

(** X8: without auto-split, a successful single-file plot draws first the
    raw curve of the whole [x] and [y] columns, in blue, labelled with the
    given label (or the file's base name) and " (raw)"; after it comes, when
    smoothing is on, the red " (smoothed)" curve of the smoothed columns, and
    then, when peak marking is on, the "Ox peak" marker at the first maximum
    of the current and the "Red peak" marker at its first minimum; nothing
    else. *)
Theorem single_raw_layout ms sg (k : nat) (label : option string) (smooth mark_peaks : bool)
    (w w' : world) (fig : figure) (u : upload) (fr : frame) :
  nth_error (uploads w) k = Some u -> read_csv u = Table fr ->
  plot_single_cv ms sg k label smooth mark_peaks false w = (inr fig, w') ->
  exists sm pk, f_series fig =
    line (display_name label (u_name u) ++ " (raw)") (Named "blue")
         (map r_x (rows fr)) (map r_y (rows fr)) :: sm ++ pk /\
    (if smooth then
       exists xs ys, sg (map r_x (rows fr)) 11 3 = Some xs /\
         sg (map r_y (rows fr)) 11 3 = Some ys /\
         sm = [line (display_name label (u_name u) ++ " (smoothed)") (Named "red") xs ys]
     else sm = []) /\
    (if mark_peaks then
       exists ox red, argmax (map r_y (rows fr)) = Some ox /\
         argmin (map r_y (rows fr)) = Some red /\
         pk = [marker "Ox peak" (Named "r") (nth ox (map r_x (rows fr)) 0%Q)
                 (nth ox (map r_y (rows fr)) 0%Q);
               marker "Red peak" (Named "b") (nth red (map r_x (rows fr)) 0%Q)
                 (nth red (map r_y (rows fr)) 0%Q)]
     else pk = []).
Proof.
  intros Hk Hr H. unfold plot_single_cv in H.
  rewrite (bind_step _ _ _ _ _ (read_cv_data_table k u fr w Hk Hr)) in H.
  unfold df_get in H.
  destruct (has_column fr "x"), (has_column fr "y");
    cbv beta iota in H; try (cbv [raise] in H; discriminate).
  rewrite (bind_step _ _ _ _ _ (get_upload_after_read k u w Hk)) in H.
  peel_as H curves Hcurves. peel_as H peaks Hpeaks.
  cbv [ret] in H. injection H as <- _. cbn [f_series].
  assert (Hc : exists sm, curves =
            line (display_name label (u_name u) ++ " (raw)") (Named "blue")
                 (map r_x (rows fr)) (map r_y (rows fr)) :: sm /\
            (if smooth then
               exists xs ys, sg (map r_x (rows fr)) 11 3 = Some xs /\
                 sg (map r_y (rows fr)) 11 3 = Some ys /\
                 sm = [line (display_name label (u_name u) ++ " (smoothed)") (Named "red") xs ys]
             else sm = [])).
  { destruct smooth.
    - peel_as Hcurves xs Hxs. peel_as Hcurves ys Hys. cbv [ret] in Hcurves.
      injection Hcurves as <- _.
      eexists. split; [reflexivity|]. exists xs, ys.
      cbv [smooth_seq of_option] in Hxs, Hys.
      destruct (sg (map r_x (rows fr)) 11 3);
        [cbv [ret] in Hxs; injection Hxs as <- _|cbv [raise] in Hxs; discriminate].
      destruct (sg (map r_y (rows fr)) 11 3);
        [cbv [ret] in Hys; injection Hys as <- _|cbv [raise] in Hys; discriminate].
      auto.
    - cbv [ret] in Hcurves. injection Hcurves as <- _. exists []. split; reflexivity. }
  destruct Hc as (sm & -> & Hsm).
  exists sm, peaks. split; [reflexivity|]. split; [exact Hsm|].
  destruct mark_peaks.
  - peel_as Hpeaks ox Hox. peel_as Hpeaks rd Hred. cbv [ret] in Hpeaks.
    injection Hpeaks as <- _. exists ox, rd.
    cbv [of_option] in Hox, Hred.
    destruct (argmax (map r_y (rows fr)));
      [cbv [ret] in Hox; injection Hox as <- _|cbv [raise] in Hox; discriminate].
    destruct (argmin (map r_y (rows fr)));
      [cbv [ret] in Hred; injection Hred as <- _|cbv [raise] in Hred; discriminate].
    auto.
  - cbv [ret andb negb] in Hpeaks. injection Hpeaks as <- _. reflexivity.
Qed.

(** X9: the axis labels of a successful single-file plot come from the file
    it plots: ["Potential (" + x_unit + ")"] and ["Current (" + y_unit + ")"],
    each unit being the first non-missing cell of the [x_unit] (resp.
    [y_unit]) column, ["V"] (resp. ["A"]) when there is none. *)
Theorem single_axis_units ms sg (k : nat) (label : option string)
    (smooth mark_peaks auto_split : bool) (w w' : world) (fig : figure) (u : upload) (fr : frame) :
  nth_error (uploads w) k = Some u -> read_csv u = Table fr ->
  plot_single_cv ms sg k label smooth mark_peaks auto_split w = (inr fig, w') ->
  f_xlabel fig = ("Potential (" ++ unit_of fr "x_unit" r_x_unit "V" ++ ")")%string /\
  f_ylabel fig = ("Current (" ++ unit_of fr "y_unit" r_y_unit "A" ++ ")")%string.
Proof.
  intros Hk Hr H. unfold plot_single_cv in H.
  rewrite (bind_step _ _ _ _ _ (read_cv_data_table k u fr w Hk Hr)) in H.
  unfold df_get in H.
  destruct (has_column fr "x"), (has_column fr "y");
    cbv beta iota in H; try (cbv [raise] in H; discriminate).
  peel_as H u' Hu'. peel_as H curves Hcurves. peel_as H peaks Hpeaks.
  cbv [ret] in H. injection H as <- _. split; reflexivity.
Qed.

(** X10: a file whose [x] and [y] columns exist but hold no row: without
    auto-split and smoothing, peak marking makes [plot_single_cv] raise
    [ValueError] ([np.argmax] of an empty sequence), while without peak
    marking it plots a single, empty, raw curve. *)
Theorem single_no_rows_peaks_fail ms sg (k : nat) (label : option string)
    (w : world) (u : upload) (fr : frame) :
  nth_error (uploads w) k = Some u -> read_csv u = Table fr ->
  has_column fr "x" = true -> has_column fr "y" = true -> rows fr = [] ->
  fst (plot_single_cv ms sg k label false true false w)
    = inl (ValueError "argmax of an empty sequence") /\
  exists fig w', plot_single_cv ms sg k label false false false w = (inr fig, w') /\
    f_series fig = [line (display_name label (u_name u) ++ " (raw)") (Named "blue") [] []].
Proof.
  intros Hk Hr Hx Hy Hrows.
  split; [|eexists _, _; split].
  1,2: unfold plot_single_cv;
       rewrite (bind_step _ _ _ _ _ (read_cv_data_table k u fr w Hk Hr));
       unfold df_get; rewrite Hx, Hy, Hrows; cbv beta iota;
       rewrite (bind_step _ _ _ _ _ (get_upload_after_read k u w Hk));
       reflexivity.
  reflexivity.
Qed.

(** ** The overlay: totality and the file selection *)

Lemma set_nth_Forall {A} (P : A -> Prop) (k : nat) (x : A) (l : list A) :
  Forall P l -> P x -> Forall P (set_nth k x l).
Proof.
  revert k. induction l as [|y t IH]; intros k Hl Hx; [destruct k; constructor|].
  inversion Hl as [|? ? Hy Ht]; subst. destruct k; simpl; constructor; auto.
Qed.

(** One reading by the loader: it returns (keeping the number of uploads,
    and keeping every upload parseable), or it raises [ParserError] on an
    upload that cannot be parsed. *)
Lemma read_cv_data_outcome (k : nat) (w : world) :
  k < length (uploads w) ->
  (exists r w', read_cv_data k w = (inr r, w') /\
     length (uploads w') = length (uploads w) /\ (all_parse w -> all_parse w')) \/
  (exists w', read_cv_data k w = (inl ParserError, w') /\ ~ all_parse w).
Proof.
  intro Hk. destruct (nth_error (uploads w) k) as [u|] eqn:E;
    [|apply nth_error_None in E; lia].
  assert (Hc : read_csv (consumed_upload u) <> Unparsable) by discriminate.
  destruct (read_csv u) as [| |fr] eqn:Hr.
  - left. rewrite (read_cv_data_empty k u w E Hr). eexists _, _. split; [reflexivity|].
    split; [apply set_nth_length|]. unfold all_parse. cbn [uploads].
    intro Hp. apply set_nth_Forall; assumption.
  - right. eexists. split; [exact (read_cv_data_unparsable k u w E Hr)|].
    intro Hp. unfold all_parse in Hp. rewrite Forall_forall in Hp.
    exact (Hp u (nth_error_In _ _ E) Hr).
  - left. rewrite (read_cv_data_table k u fr w E Hr). eexists _, _. split; [reflexivity|].
    split; [apply set_nth_length|]. unfold all_parse. cbn [uploads].
    intro Hp. apply set_nth_Forall; assumption.
Qed.

Lemma multi_file_series_plain_outcome ms sg (selected_files : list string) (i : nat) (w : world) :
  i < length (uploads w) ->
  (exists r w', multi_file_series ms sg false selected_files false i w = (inr r, w') /\
     length (uploads w') = length (uploads w) /\ (all_parse w -> all_parse w')) \/
  (exists w', multi_file_series ms sg false selected_files false i w = (inl ParserError, w') /\
     ~ all_parse w).
Proof.
  intro Hi. destruct (nth_error (uploads w) i) as [u|] eqn:E;
    [|apply nth_error_None in E; lia].
  unfold multi_file_series.
  rewrite (bind_step _ _ w w u) by (unfold get_upload; rewrite E; reflexivity).
  cbv beta.
  destruct (match selected_files with [] => false | _ => true end
            && negb (existsb (String.eqb (u_name u)) selected_files)).
  - left. eexists _, _. split; [reflexivity|]. auto.
  - destruct (read_cv_data_outcome i w Hi)
      as [([[[p c] xu] yu] & w1 & Hr & Hl & Hp)|(w1 & Hr & Hn)].
    + left. rewrite (bind_step _ _ _ _ _ Hr).
      destruct p, c; cbv beta iota zeta; eexists _, _;
        (split; [reflexivity|split; assumption]).
    + right. exists w1. split; [|exact Hn]. unfold bind. rewrite Hr. reflexivity.
Qed.

Lemma for_each_outcome {A} (I P : world -> Prop) (l : list A) (f : A -> M (list series)) :
  (forall x w, In x l -> I w ->
     (exists r w', f x w = (inr r, w') /\ I w' /\ (P w -> P w')) \/
     (exists w', f x w = (inl ParserError, w') /\ ~ P w)) ->
  forall w, I w ->
    (exists r w', for_each l f w = (inr r, w') /\ I w' /\ (P w -> P w')) \/
    (exists w', for_each l f w = (inl ParserError, w') /\ ~ P w).
Proof.
  induction l as [|x t IH]; simpl; intros Hf w Hw.
  - left. eexists _, _. split; [reflexivity|]. auto.
  - destruct (Hf x w (or_introl eq_refl) Hw) as [(r1 & w1 & H1 & I1 & P1)|(w1 & H1 & N1)].
    + destruct (IH (fun y v Hy => Hf y v (or_intror Hy)) w1 I1)
        as [(r2 & w2 & H2 & I2 & P2)|(w2 & H2 & N2)].
      * left. rewrite (bind_step _ _ _ _ _ H1). cbv beta.
        rewrite (bind_step _ _ _ _ _ H2).
        eexists _, _. split; [reflexivity|]. split; [exact I2|]. intro Hp. exact (P2 (P1 Hp)).
      * right. exists w2. split; [|intro Hp; exact (N2 (P1 Hp))].
        rewrite (bind_step _ _ _ _ _ H1). cbv beta. unfold bind. rewrite H2. reflexivity.
    + right. exists w1. split; [|exact N1]. unfold bind. rewrite H1. reflexivity.
Qed.

Lemma plot_multi_cv_plain_cases ms sg (selected_files : list string) (w : world) :
  (exists fig w', plot_multi_cv ms sg false selected_files false w = (inr fig, w')) \/
  (exists w', plot_multi_cv ms sg false selected_files false w = (inl ParserError, w') /\
     ~ all_parse w).
Proof.
  unfold plot_multi_cv. cbv zeta.
  assert (Hf : forall i v, In i (seq 0 (length (uploads w))) ->
                 length (uploads v) = length (uploads w) ->
     (exists r v', multi_file_series ms sg false selected_files false i v = (inr r, v') /\
        length (uploads v') = length (uploads w) /\ (all_parse v -> all_parse v')) \/
     (exists v', multi_file_series ms sg false selected_files false i v = (inl ParserError, v') /\
        ~ all_parse v)).
  { intros i v Hi Hv. apply in_seq in Hi.
    destruct (multi_file_series_plain_outcome ms sg selected_files i v ltac:(lia))
      as [(r & v' & H & Hl & Hp)|(v' & H & Hn)].
    - left. exists r, v'. split; [exact H|]. split; [congruence|exact Hp].
    - right. exists v'. split; assumption. }
  destruct (for_each_outcome (fun v => length (uploads v) = length (uploads w)) all_parse
              _ _ Hf w eq_refl) as [(r & w1 & H1 & Hl1 & P1)|(w1 & H1 & N1)].
  - rewrite (bind_step _ _ _ _ _ H1).
    destruct (length (uploads w)) as [|m] eqn:En.
    + left. eexists _, _. reflexivity.
    + destruct (read_cv_data_outcome 0 w1 ltac:(lia))
        as [([[[p c] xu] yu] & w2 & H2 & _)|(w2 & H2 & N2)].
      * left. cbv [multi_units]. unfold bind. rewrite H2.
        destruct p, c; eexists _, _; reflexivity.
      * right. exists w2. split; [|intro Hp; exact (N2 (P1 Hp))].
        cbv [multi_units]. unfold bind. rewrite H2. reflexivity.
  - right. exists w1. split; [|exact N1]. unfold bind. rewrite H1. reflexivity.
Qed.

(** X11: with smoothing and auto-split off, the only error [plot_multi_cv]
    can raise is the [ParserError] of [pd.read_csv], which the loader does
    not catch; when every upload can be parsed it always returns a figure
    (empty files and files without [x] or [y] are skipped); and an
    unparsable [files[0]] makes it raise [ParserError], whatever the
    selection, since [files[0]] is read again for the axis units. *)
Theorem plot_multi_cv_plain_outcome ms sg (selected_files : list string) (w : world) :
  (all_parse w ->
     exists fig w', plot_multi_cv ms sg false selected_files false w = (inr fig, w')) /\
  (forall e w', plot_multi_cv ms sg false selected_files false w = (inl e, w') ->
     e = ParserError) /\
  (forall u0, nth_error (uploads w) 0 = Some u0 -> read_csv u0 = Unparsable ->
     fst (plot_multi_cv ms sg false selected_files false w) = inl ParserError).
Proof.
  split; [|split].
  - intro Hp. destruct (plot_multi_cv_plain_cases ms sg selected_files w)
      as [Hok|(w' & _ & Hn)]; [exact Hok|contradiction].
  - intros e w' H. destruct (plot_multi_cv_plain_cases ms sg selected_files w)
      as [(fig & w'' & H')|(w'' & H' & _)]; congruence.
  - intros u0 H0 Hr.
    destruct (plot_multi_cv_plain_cases ms sg selected_files w)
      as [(fig & w' & H)|(w' & H & _)]; [exfalso|rewrite H; reflexivity].
    pose proof H as H'. unfold plot_multi_cv in H'. peel_w H' c wa Hc.
    peel_as H' un Hu.
    pose proof Hc as Hc'.
    destruct (length_first _ _ H0) as [m Hm]. rewrite Hm in Hc', Hu.
    cbn [seq for_each] in Hc'. peel_as Hc' s0 Hs0.
    unfold multi_file_series in Hs0.
    rewrite (bind_step _ _ w w u0) in Hs0 by (unfold get_upload; rewrite H0; reflexivity).
    cbv beta in Hs0. revert Hs0.
    destruct (match selected_files with [] => false | _ => true end
              && negb (existsb (String.eqb (u_name u0)) selected_files)) eqn:G; intro Hs0.
    + pose proof (overlay_loop_first _ _ _ _ _ u0 _ _ _ H0 Hc) as Ha.
      unfold first_after_loop in Ha. rewrite G in Ha.
      cbv [multi_units] in Hu. unfold bind in Hu. cbv beta in Hu.
      rewrite (read_cv_data_unparsable 0 u0 wa Ha Hr) in Hu. discriminate.
    + unfold bind in Hs0. cbv beta in Hs0.
      rewrite (read_cv_data_unparsable 0 u0 w H0 Hr) in Hs0. discriminate.
Qed.

Lemma bind_ext_l {A B} (m m' : M A) (k : A -> M B) (w : world) :
  m w = m' w -> bind m k w = bind m' k w.
Proof. intro H. unfold bind. rewrite H. reflexivity. Qed.

Lemma for_each_ext_inv {A} (I : world -> Prop) (l : list A) (f g : A -> M (list series)) :
  (forall x v r v', I v -> f x v = (r, v') -> I v') ->
  (forall x v, I v -> f x v = g x v) ->
  forall w, I w -> for_each l f w = for_each l g w.
Proof.
  intros Hf Hfg. induction l as [|x t IH]; simpl; intros w Hw; [reflexivity|].
  cbv [bind]. rewrite (Hfg x w Hw).
  destruct (g x w) as [[e|s] w1] eqn:E; [reflexivity|].
  rewrite <- (Hfg x w Hw) in E.
  rewrite (IH w1 (Hf _ _ _ _ Hw E)). reflexivity.
Qed.

Lemma multi_file_series_all_names ms sg smooth auto_split (N : list string) (i : nat) (w : world) :
  map u_name (uploads w) = N ->
  multi_file_series ms sg smooth N auto_split i w
  = multi_file_series ms sg smooth [] auto_split i w.
Proof.
  intro HN. unfold multi_file_series.
  destruct (nth_error (uploads w) i) as [u|] eqn:Hi.
  - assert (Hg : get_upload i w = (inr u, w)) by (unfold get_upload; rewrite Hi; reflexivity).
    rewrite (bind_step _ _ _ _ _ Hg), (bind_step _ _ _ _ _ Hg). cbv beta.
    rewrite (selected_passes N (u_name u)); [reflexivity|].
    right. rewrite <- HN. apply in_map. apply nth_error_In with i. exact Hi.
  - unfold bind, get_upload. rewrite Hi. reflexivity.
Qed.

Lemma plot_multi_cv_all_names ms sg smooth auto_split (w : world) :
  plot_multi_cv ms sg smooth (map u_name (uploads w)) auto_split w
  = plot_multi_cv ms sg smooth [] auto_split w.
Proof.
  unfold plot_multi_cv. cbv zeta. apply bind_ext_l.
  apply (for_each_ext_inv (fun v => map u_name (uploads v) = map u_name (uploads w))).
  - intros i v r v' Hv H.
    pose proof (multi_file_series_same_names ms sg smooth _ auto_split i v r v' H).
    unfold same_names in *. congruence.
  - intros i v Hv. apply multi_file_series_all_names. exact Hv.
  - reflexivity.
Qed.

(** X12: passing the names of all the uploaded files as [selected_files]
    draws the same figure, with the same effects, as passing no selection. *)
Theorem plot_multi_cv_select_all ms sg smooth auto_split (w : world) :
  plot_multi_cv ms sg smooth (map u_name (uploads w)) auto_split w
  = plot_multi_cv ms sg smooth [] auto_split w.
Proof. apply plot_multi_cv_all_names. Qed.

Lemma guard_false_selected (selected_files : list string) (name : string) :
  (match selected_files with [] => false | _ => true end
   && negb (existsb (String.eqb name) selected_files)) = false ->
  selected_files = [] \/ In name selected_files.
Proof.
  destruct selected_files as [|s t]; [left; reflexivity|].
  intro H.
  change ((true && negb (existsb (String.eqb name) (s :: t)))%bool = false) in H.
  rewrite andb_true_l, negb_false_iff, existsb_exists in H.
  destruct H as (x & Hx & E). apply String.eqb_eq in E. subst x. right. exact Hx.
Qed.

Lemma multi_file_series_plain_colors ms sg smooth selected_files (w0 : world) (i : nat) :
  forall w r w', same_names w0 w ->
  multi_file_series ms sg smooth selected_files false i w = (inr r, w') ->
  Forall (file_colored w0 selected_files) r /\ same_names w0 w'.
Proof.
  intros w r w' Hw H.
  assert (Hw' : same_names w0 w').
  { pose proof (multi_file_series_same_names ms sg smooth selected_files false i w _ w' H).
    unfold same_names in *. congruence. }
  split; [|exact Hw'].
  unfold multi_file_series in H.
  destruct (nth_error (uploads w) i) as [f|] eqn:Hf;
    [|unfold bind, get_upload in H; rewrite Hf in H; discriminate].
  rewrite (bind_step _ _ w w f) in H by (unfold get_upload; rewrite Hf; reflexivity).
  cbv beta in H.
  assert (Hname : exists u, nth_error (uploads w0) i = Some u /\ u_name u = u_name f).
  { unfold same_names in Hw.
    assert (E : nth_error (map u_name (uploads w0)) i = nth_error (map u_name (uploads w)) i)
      by (rewrite Hw; reflexivity).
    rewrite !nth_error_map, Hf in E.
    destruct (nth_error (uploads w0) i) as [u|]; [|discriminate].
    injection E as E. exists u. auto. }
  destruct Hname as (u & Hu & Hun).
  destruct (match selected_files with [] => false | _ => true end
            && negb (existsb (String.eqb (u_name f)) selected_files)) eqn:Hs.
  { cbv [ret] in H. injection H as <- _. constructor. }
  apply guard_false_selected in Hs.
  peel_as H loaded Hload.
  destruct loaded as [[[[p|] [c|]] xu] yu];
    try (cbv [ret] in H; injection H as <- _; constructor).
  destruct smooth;
    [ peel H; peel H; cbv [ret] in H; injection H as <- _
    | cbv [ret] in H; injection H as <- _ ];
    repeat constructor; exists i, u; rewrite Hun; repeat split; auto.
Qed.

(** X13: in the overlay without auto-split, every curve belongs to a
    selected file (any file when no selection is given) at index [i] of the
    uploads, has the color [tab10[i mod 10]], and is labelled with that
    file's name without [.csv], followed by " (raw)" or " (smoothed)". *)
Theorem overlay_plain_colors ms sg smooth (selected_files : list string)
    (w w' : world) (fig : figure) :
  plot_multi_cv ms sg smooth selected_files false w = (inr fig, w') ->
  Forall (file_colored w selected_files) (f_series fig).
Proof.
  intro H. unfold plot_multi_cv in H. peel_as H curves Hcurves.
  peel_as H units Hunits. destruct units as [xu yu].
  cbv [ret] in H. injection H as <- _. simpl.
  refine (proj1 (for_each_forall_inv (same_names w) _ _ _ _ _ _ _ _ Hcurves)).
  - intros i w1 r w2 Hw1 Hi.
    exact (multi_file_series_plain_colors _ _ _ _ w i w1 r w2 Hw1 Hi).
  - reflexivity.
Qed.

(** ** The segmenter on short sequences *)

Lemma split_cycles_no_return (potential : list Q) (tol : Q) :
  potential <> [] ->
  (forall k, 0 < k < length potential ->
     ~ ((Qabs (nth k potential 0 - nth 0 potential 0) < tol)%Q /\ k > 10)) ->
  split_cycles_by_return_to_start potential tol = Some [(0, length potential)].
Proof.
  intros Hne Hnone.
  destruct (split_cycles_shape potential tol Hne)
    as (segs & st & Hsplit & Hst & _ & Ht & Hok).
  rewrite Hsplit. destruct segs as [|[s e] rest].
  - simpl in Ht. subst. reflexivity.
  - exfalso.
    destruct (tiles_bounds _ 0 st Ht s e (or_introl eq_refl)) as (_ & _ & He).
    simpl in Ht. destruct Ht as (-> & Hse & _).
    inversion Hok as [|? ? Hfirst _]; subst.
    apply closed_ok_rts, returns_to_start_spec in Hfirst.
    apply (Hnone e); [lia|].
    rewrite Nat.sub_0_r in Hfirst. exact Hfirst.
Qed.

(** X14: a sequence of at most 11 points, or any sequence when the
    tolerance is not positive, is never split: the segmenter returns the
    one segment [(0, len(potential))]. *)
Theorem split_cycles_short_or_nonpositive_tol (potential : list Q) (tol : Q) :
  potential <> [] ->
  length potential <= 11 \/ (tol <= 0)%Q ->
  split_cycles_by_return_to_start potential tol = Some [(0, length potential)].
Proof.
  intros Hne Hcase. apply split_cycles_no_return; [exact Hne|].
  intros k Hk (Habs & Hk10). destruct Hcase as [Hlen|Htol]; [lia|].
  apply (Qlt_not_le _ _ Habs). apply Qle_trans with 0%Q; [exact Htol | apply Qabs_nonneg].
Qed.

(** ** The page script *)

Lemma checkbox_loop_all (include : nat -> bool) (i : nat) (seen sel : list string)
    (files : list upload) :
  (forall j, include j = true) -> NoDup (seen ++ map u_name files) ->
  checkbox_loop include i seen sel files = inr (sel ++ map u_name files).
Proof.
  intro Hinc. revert i seen sel.
  induction files as [|f t IH]; intros i seen sel Hnd; simpl.
  - rewrite app_nil_r. reflexivity.
  - cbn [map] in Hnd. destruct (existsb (String.eqb (u_name f)) seen) eqn:E.
    + apply existsb_eqb_In in E. exfalso.
      apply (NoDup_remove_2 _ _ _ Hnd). apply in_or_app. left. exact E.
    + rewrite Hinc, IH.
      * rewrite <- app_assoc. reflexivity.
      * exact (Permutation_NoDup (Permutation_sym (Permutation_middle _ _ _)) Hnd).
Qed.

Lemma checkbox_loop_none (include : nat -> bool) (i : nat) (seen sel : list string)
    (files : list upload) :
  (forall j, include j = false) -> NoDup (seen ++ map u_name files) ->
  checkbox_loop include i seen sel files = inr sel.
Proof.
  intro Hinc. revert i seen sel.
  induction files as [|f t IH]; intros i seen sel Hnd; simpl; [reflexivity|].
  cbn [map] in Hnd. destruct (existsb (String.eqb (u_name f)) seen) eqn:E.
  - apply existsb_eqb_In in E. exfalso.
    apply (NoDup_remove_2 _ _ _ Hnd). apply in_or_app. left. exact E.
  - rewrite Hinc. apply IH. exact (Permutation_NoDup (Permutation_sym (Permutation_middle _ _ _)) Hnd).
Qed.

Lemma checkbox_loop_dup (include : nat -> bool) (i : nat) (seen sel : list string)
    (files : list upload) :
  NoDup seen -> ~ NoDup (seen ++ map u_name files) ->
  checkbox_loop include i seen sel files = inl DuplicateElementId.
Proof.
  revert i seen sel.
  induction files as [|f t IH]; intros i seen sel Hs Hnd; simpl.
  - exfalso. apply Hnd. rewrite app_nil_r. exact Hs.
  - destruct (existsb (String.eqb (u_name f)) seen) eqn:E; [reflexivity|].
    apply IH.
    + constructor; [|exact Hs]. intro Hin. apply existsb_eqb_In in Hin. congruence.
    + intro Hnd'. apply Hnd. cbn [map].
      exact (Permutation_NoDup (Permutation_middle _ _ _) Hnd').
Qed.

(** X15: in the overlay view with files uploaded under distinct names, when
    no file's check box is ticked the page shows the "select at least one
    file" message without reading any file or showing any warning, and when
    every box is ticked (their default) the figure is the one [plot_multi_cv]
    draws with no selection filter; when two uploads share a name, the second
    check box with that label raises Streamlit's duplicate element error and
    the page shows neither. *)
Theorem main_page_overlay_selection ms sg (a : answers) (w : world) :
  a_view a = Overlay -> uploads w <> [] ->
  (NoDup (map u_name (uploads w)) ->
     ((forall i, a_include a i = false) -> main_page ms sg a w = (inr Info_select, w)) /\
     ((forall i, a_include a i = true) ->
        main_page ms sg a w =
        (let* fig := plot_multi_cv ms sg (a_smooth a) [] (a_auto_split a) in ret (Shown fig)) w)) /\
  (~ NoDup (map u_name (uploads w)) -> main_page ms sg a w = (inl DuplicateElementId, w)).
Proof.
  intros Hv Hne. unfold main_page. rewrite Hv.
  split; [intro Hnd; split; intro Hinc|intro Hnd].
  - rewrite (checkbox_loop_none _ 0 [] [] _ Hinc Hnd).
    destruct (uploads w); [congruence|reflexivity].
  - rewrite (checkbox_loop_all _ 0 [] [] _ Hinc Hnd). cbn [app].
    pose proof (plot_multi_cv_all_names ms sg (a_smooth a) (a_auto_split a) w) as E.
    destruct (uploads w) as [|f t] eqn:Ew; [congruence|].
    cbn [map]. apply bind_ext_l. exact E.
  - rewrite (checkbox_loop_dup _ 0 [] [] _ (NoDup_nil _) Hnd).
    destruct (uploads w); [congruence|reflexivity].
Qed.

(** ** Witnesses *)

Lemma cycle_label_injective_witness : cycle_label 3 = cycle_label 3 /\ 3 = 3.
Proof. split; [reflexivity|]. apply cycle_label_injective. reflexivity. Defined.

Lemma read_cv_data_second_read_witness :
  exists r w1, read_cv_data 0 units_world = (inr r, w1) /\
  exists u, nth_error (uploads units_world) 0 = Some u /\
    read_cv_data 0 w1 =
    (inr (None, None, "V"%string, "A"%string),
     {| uploads := uploads w1; log := log w1 ++ [Warning_empty (u_name u)] |}).
Proof.
  eexists _, _. split; [reflexivity|].
  eapply (read_cv_data_second_read 0 units_world). reflexivity.
Defined.

Lemma single_split_default_covers_data_witness :
  exists fig w', plot_single_cv keep_all savgol_raises 0 None false false true split_world
                 = (inr fig, w') /\
  exists segs, split_cycles_by_return_to_start (map r_x (rows two_cycle_frame)) default_tol
               = Some segs /\
    length (f_series fig) = length segs /\
    concat (map s_x (f_series fig)) = map r_x (rows two_cycle_frame) /\
    concat (map s_y (f_series fig)) = map r_y (rows two_cycle_frame).
Proof.
  eexists _, _. split; [reflexivity|].
  eapply (single_split_default_covers_data savgol_raises 0 None false split_world _ _
           {| u_name := "cv.csv"; u_content := Table two_cycle_frame; u_consumed := false |} two_cycle_frame);
    reflexivity.
Defined.

Lemma single_raw_layout_witness :
  exists fig w', plot_single_cv keep_all savgol_id 0 None true true false units_world
                 = (inr fig, w') /\
  exists sm pk, f_series fig =
    line (display_name None "A.csv" ++ " (raw)") (Named "blue")
         (map r_x (rows mv_frame)) (map r_y (rows mv_frame)) :: sm ++ pk /\
    (if true then
       exists xs ys, savgol_id (map r_x (rows mv_frame)) 11 3 = Some xs /\
         savgol_id (map r_y (rows mv_frame)) 11 3 = Some ys /\
         sm = [line (display_name None "A.csv" ++ " (smoothed)") (Named "red") xs ys]
     else sm = []) /\
    (if true then
       exists ox red, argmax (map r_y (rows mv_frame)) = Some ox /\
         argmin (map r_y (rows mv_frame)) = Some red /\
         pk = [marker "Ox peak" (Named "r") (nth ox (map r_x (rows mv_frame)) 0%Q)
                 (nth ox (map r_y (rows mv_frame)) 0%Q);
               marker "Red peak" (Named "b") (nth red (map r_x (rows mv_frame)) 0%Q)
                 (nth red (map r_y (rows mv_frame)) 0%Q)]
     else pk = []).
Proof.
  eexists _, _. split; [reflexivity|].
  eapply (single_raw_layout keep_all savgol_id 0 None true true units_world _ _
           {| u_name := "A.csv"; u_content := Table mv_frame; u_consumed := false |} mv_frame);
    reflexivity.
Defined.

Lemma single_axis_units_witness :
  exists fig w', plot_single_cv keep_all savgol_raises 0 None false false false units_world
                 = (inr fig, w') /\
  f_xlabel fig = ("Potential (" ++ unit_of mv_frame "x_unit" r_x_unit "V" ++ ")")%string /\
  f_ylabel fig = ("Current (" ++ unit_of mv_frame "y_unit" r_y_unit "A" ++ ")")%string.
Proof.
  eexists _, _. split; [reflexivity|].
  eapply (single_axis_units keep_all savgol_raises 0 None false false false units_world _ _
           {| u_name := "A.csv"; u_content := Table mv_frame; u_consumed := false |} mv_frame);
    reflexivity.
Defined.

Lemma single_no_rows_peaks_fail_witness :
  fst (plot_single_cv keep_all savgol_raises 0 None false true false header_only_world)
    = inl (ValueError "argmax of an empty sequence") /\
  exists fig w', plot_single_cv keep_all savgol_raises 0 None false false false header_only_world
                 = (inr fig, w') /\
    f_series fig = [line (display_name None "empty.csv" ++ " (raw)") (Named "blue") [] []].
Proof.
  apply (single_no_rows_peaks_fail keep_all savgol_raises 0 None header_only_world
           {| u_name := "empty.csv";
              u_content := Table {| columns := ["x"; "y"]%string; rows := [] |};
              u_consumed := false |}
           {| columns := ["x"; "y"]%string; rows := [] |});
    reflexivity.
Defined.

Lemma overlay_plain_colors_witness :
  exists fig w', plot_multi_cv keep_all savgol_raises false [] false units_world = (inr fig, w') /\
    Forall (file_colored units_world []) (f_series fig).
Proof.
  eexists _, _. split; [reflexivity|].
  eapply (overlay_plain_colors keep_all savgol_raises false [] units_world).
  reflexivity.
Defined.

Lemma split_cycles_short_or_nonpositive_tol_witness :
  split_cycles_by_return_to_start [1; 2; 1]%Q default_tol = Some [(0, length [1; 2; 1]%Q)] /\
  split_cycles_by_return_to_start [0; 1; 2; 3; 4; 5; 6; 7; 8; 9; 10; 11; 0; 1]%Q 0
    = Some [(0, length [0; 1; 2; 3; 4; 5; 6; 7; 8; 9; 10; 11; 0; 1]%Q)].
Proof.
  split; apply split_cycles_short_or_nonpositive_tol.
  - discriminate.
  - left. simpl. lia.
  - discriminate.
  - right. apply Qle_refl.
Defined.

Lemma main_page_overlay_selection_witness :
  main_page keep_all savgol_raises overlay_all units_world =
    (let* fig := plot_multi_cv keep_all savgol_raises false [] false in ret (Shown fig))
      units_world /\
  main_page keep_all savgol_raises overlay_all dup_world = (inl DuplicateElementId, dup_world).
Proof.
  split.
  - destruct (main_page_overlay_selection keep_all savgol_raises overlay_all units_world
                eq_refl ltac:(discriminate)) as [Hd _].
    apply (proj2 (Hd ltac:(constructor; [intros [H|[]]; discriminate H
                                        |constructor; [intros []|constructor]]))).
    intro i. reflexivity.
  - destruct (main_page_overlay_selection keep_all savgol_raises overlay_all dup_world
                eq_refl ltac:(discriminate)) as [_ Hd].
    apply Hd. intro H. inversion H as [|? ? Hn _]. apply Hn. left. reflexivity.
Defined.

Lemma plot_multi_cv_plain_outcome_witness :
  (exists fig w', plot_multi_cv keep_all savgol_raises false [] false units_world'
                  = (inr fig, w')) /\
  fst (plot_multi_cv keep_all savgol_raises false ["B.csv"%string] false parse_error_world)
    = inl ParserError.
Proof.
  split.
  - apply (proj1 (plot_multi_cv_plain_outcome keep_all savgol_raises [] units_world')).
    unfold all_parse. cbn [uploads].
    repeat constructor; cbv [read_csv u_consumed u_content]; discriminate.
  - apply (proj2 (proj2 (plot_multi_cv_plain_outcome keep_all savgol_raises
                            ["B.csv"%string] parse_error_world))
             {| u_name := "bad.csv"; u_content := Unparsable; u_consumed := false |});
      reflexivity.
Defined.
